(** * Vancouver public-art status tools: loader and query engine

    A shallow embedding of [vancouver_art_status_tools.py] (class [Tools]):
    the markdown loader [_load_status_database] and the query operations
    [get_artwork_status], [list_active_artworks], [compare_artwork_status]
    and [list_artworks_by_neighborhood], followed by the properties the
    specification states about them.

    Modelling conventions.
    - A Python [str] is a [string] whose characters are code points below
      256; [lower], [strip] and comparison follow Python on that range.
    - [self.status_db] is a Python [dict]: an association list kept in
      insertion order, where assigning to a present key replaces the value
      in place and assigning to a new key appends.
    - A Python [int] is a [Z]; [len] results are [nat].
    - A subscript [d[k]] on a missing key raises [KeyError], and [str] of
      an [int] of more than 4300 digits raises [ValueError]: operations
      that do either return a [result]. *)

From Stdlib Require Import String Ascii List ZArith Bool Arith Lia.
From Stdlib Require Import DecimalString.
From Stdlib Require Import Permutation Sorted.
Import ListNotations.

#[local] Open Scope list_scope.
#[local] Open Scope string_scope.

(* ================================================================== *)
(** ** Results of operations that may raise *)

Inductive exn : Type :=
| KeyError (k : string)
| ValueError.

Inductive result (A : Type) : Type :=
| Returned (a : A)
| Raised (e : exn).
Arguments Returned {A} a.
Arguments Raised {A} e.

Definition bind {A B : Type} (c : result A) (k : A -> result B) : result B :=
  match c with
  | Returned a => k a
  | Raised e => Raised e
  end.

Notation "x <- c ;; k" := (bind c (fun x => k))
  (at level 61, c at next level, right associativity).

(* ================================================================== *)
(** ** Python string primitives *)

Module PyStr.

(** The line feed, written ["\n"] in the source. *)
Definition nl : string := String (ascii_of_nat 10) EmptyString.

(** Truth value of a string: [if s] holds iff [s] is not empty. *)
Definition truthy (s : string) : bool :=
  match s with
  | EmptyString => false
  | String _ _ => true
  end.

(** [c.lower()] on one code point below 256: [A]-[Z] and the accented
    capitals U+00C0..U+00DE (U+00D7, the multiplication sign, excepted)
    move up by 32. *)
Definition lower_char (c : ascii) : ascii :=
  let n := nat_of_ascii c in
  if (((65 <=? n) && (n <=? 90))
      || ((192 <=? n) && (n <=? 222) && negb (n =? 215)))%nat
  then ascii_of_nat (n + 32)
  else c.

(** [s.lower()]. *)
Fixpoint lower (s : string) : string :=
  match s with
  | EmptyString => EmptyString
  | String c s' => String (lower_char c) (lower s')
  end.

(** [c.isspace()] below 256: TAB..CR, FS..US, space, NEL and NBSP. *)
Definition isspace (c : ascii) : bool :=
  let n := nat_of_ascii c in
  (((9 <=? n) && (n <=? 13)) || ((28 <=? n) && (n <=? 32))
   || (n =? 133) || (n =? 160))%nat.

Fixpoint lstrip (s : string) : string :=
  match s with
  | EmptyString => EmptyString
  | String c s' => if isspace c then lstrip s' else s
  end.

Fixpoint rstrip (s : string) : string :=
  match s with
  | EmptyString => EmptyString
  | String c s' =>
      let r := rstrip s' in
      if isspace c && negb (truthy r) then EmptyString else String c r
  end.

(** [s.strip()]. *)
Definition strip (s : string) : string := rstrip (lstrip s).

(** [s.split(",")]: never empty, [""] splits to [[""]]. *)
Fixpoint split_comma (s : string) : list string :=
  match s with
  | EmptyString => [EmptyString]
  | String c s' =>
      if Ascii.eqb c "," then EmptyString :: split_comma s'
      else match split_comma s' with
           | h :: t => String c h :: t
           | [] => [String c EmptyString]
           end
  end.

(** [needle in hay] on strings: substring containment. *)
Fixpoint contains (needle hay : string) : bool :=
  prefix needle hay
  || match hay with
     | EmptyString => false
     | String _ hay' => contains needle hay'
     end.

(** [s[:n]] for a non-negative literal [n]. *)
Definition take (n : nat) (s : string) : string := substring 0 n s.

(** [str(n)] for a length or an enumeration counter: such a number is at
    most [sys.maxsize] and has far fewer digits than [str_int] refuses. *)
Definition str_nat (n : nat) : string :=
  NilEmpty.string_of_uint (Nat.to_uint n).

(** The decimal digits of an [int], after a minus sign when negative. *)
Definition decimal (z : Z) : string :=
  NilEmpty.string_of_int (Z.to_int z).

(** [sys.int_max_str_digits] at its default, and the least magnitude that
    has more digits than that. *)
Definition int_max_str_digits : Z := 4300.

Definition str_digits_bound : Z := 10 ^ int_max_str_digits.

(** [str(z)] for an [int], also inside an f-string: CPython (3.11 and
    later) raises [ValueError] rather than render more than
    [int_max_str_digits] digits. *)
Definition str_int (z : Z) : result string :=
  if (str_digits_bound <=? Z.abs z)%Z then Raised ValueError
  else Returned (decimal z).

(** [sys.maxsize], the largest value of [len] (64-bit CPython). *)
Definition sys_maxsize : Z := 2 ^ 63 - 1.

(** ["\n".join(l)]. *)
Definition join_nl (l : list string) : string := String.concat nl l.

(** [os.path.splitext(p)[0]] for a base name (no directory separator):
    cut at the last dot unless only dots precede it. *)
Fixpoint rfind_dot (s : string) : option nat :=
  match s with
  | EmptyString => None
  | String c s' =>
      match rfind_dot s' with
      | Some i => Some (S i)
      | None => if Ascii.eqb c "." then Some 0 else None
      end
  end.

Fixpoint all_dots (s : string) : bool :=
  match s with
  | EmptyString => true
  | String c s' => Ascii.eqb c "." && all_dots s'
  end.

Definition splitext_root (p : string) : string :=
  match rfind_dot p with
  | Some d => if all_dots (take d p) then p else take d p
  | None => p
  end.

End PyStr.
Import PyStr.

(* ================================================================== *)
(** ** The index: an insertion-ordered dictionary *)

Module Dict.
Section WithValue.
Context {V : Type}.

Definition dict := list (string * V).

(** [k in d]. *)
Fixpoint contains_key (d : dict) (k : string) : bool :=
  match d with
  | [] => false
  | (k', _) :: d' => String.eqb k' k || contains_key d' k
  end.

(** [d.get(k)]: the value under [k], if any. *)
Fixpoint get (d : dict) (k : string) : option V :=
  match d with
  | [] => None
  | (k', v) :: d' => if String.eqb k' k then Some v else get d' k
  end.

(** [d[k] = v]: a present key keeps its position, a new key goes last. *)
Fixpoint set (d : dict) (k : string) (v : V) : dict :=
  match d with
  | [] => [(k, v)]
  | (k', v') :: d' =>
      if String.eqb k' k then (k, v) :: d' else (k', v') :: set d' k v
  end.

(** [d.items()], [d.keys()] and [d.values()], in iteration order. *)
Definition items (d : dict) : list (string * V) := d.
Definition keys (d : dict) : list string := map fst d.
Definition values (d : dict) : list V := map snd d.

End WithValue.
Arguments dict : clear implicits.
End Dict.

(* ================================================================== *)
(** ** Records and the loader *)

(** The value stored per key: the dict literal of [_load_status_database]. *)
Record Artwork : Type := mkArtwork {
  name : string;
  title : string;
  status : string;
  location : string;
  neighborhood : string;
  description : string;
  filename : string
}.

(** What the five [re.search] calls find in a file's text: for each section
    header, [group(1)] of the first match, or [None] when there is none. *)
Record Sections : Type := mkSections {
  title_match : option string;
  status_match : option string;
  description_match : option string;
  location_match : option string;
  neighborhood_match : option string
}.

(** One entry of [glob("*.md")]: its base name, and its searched text, or
    [None] when [open] or [read] raised (the [except] branch reports the
    file and the loop goes on). *)
Record MdFile : Type := mkMdFile {
  md_filename : string;
  md_content : option Sections
}.

Definition StatusDb := Dict.dict Artwork.

(** [m.group(1).strip() if m else default]. *)
Definition group_or (m : option string) (default : string) : string :=
  match m with
  | Some g => strip g
  | None => default
  end.

(** [description[:300] + "..." if len(description) > 300 else description]. *)
Definition excerpt (description : string) : string :=
  if (300 <? String.length description)%nat
  then take 300 description ++ "..."
  else description.

(** The record built from one readable file. *)
Definition parse_artwork (fname : string) (c : Sections) : Artwork :=
  let artwork_name := splitext_root fname in
  {| name := artwork_name;
     title := group_or (title_match c) artwork_name;
     status := group_or (status_match c) "Unknown";
     location := group_or (location_match c) "";
     neighborhood := group_or (neighborhood_match c) "";
     description := excerpt (group_or (description_match c) "");
     filename := fname |}.

(** The body of the [for md_file in md_files] loop. *)
Definition load_file (db : StatusDb) (f : MdFile) : StatusDb :=
  match md_content f with
  | None => db
  | Some c =>
      let art := parse_artwork (md_filename f) c in
      let db1 := Dict.set db (lower (name art)) art in
      if negb (String.eqb (lower (title art)) (lower (name art)))
      then Dict.set db1 (lower (title art)) art
      else db1
  end.

(** [_load_status_database], started from the empty [self.status_db]. *)
Definition _load_status_database (md_files : list MdFile) : StatusDb :=
  fold_left load_file md_files [].

(* ================================================================== *)
(** ** Loops and subscripts that may raise *)

(** The loop [for x in l: out.append(f(x))] where [f] may raise. *)
Fixpoint for_each {A B : Type} (f : A -> result B) (l : list A)
  : result (list B) :=
  match l with
  | [] => Returned []
  | x :: l' => y <- f x ;; ys <- for_each f l' ;; Returned (y :: ys)
  end.

(** [self.status_db[k]]. *)
Definition getitem (db : StatusDb) (k : string) : result Artwork :=
  match Dict.get db k with
  | Some art => Returned art
  | None => Raised (KeyError k)
  end.

(* ================================================================== *)
(** ** Formatting helpers shared by the operations *)

(** [for i, x in enumerate(l, i0): response += f"{i}. {fmt(x)}\n"]. *)
Fixpoint numbered {A : Type} (fmt : A -> string) (i : nat) (l : list A)
  : string :=
  match l with
  | [] => ""
  | x :: l' => str_nat i ++ ". " ++ fmt x ++ nl ++ numbered fmt (S i) l'
  end.

(** [l[:limit]] for an [int] limit: a negative limit counts from the end. *)
Definition slice_to {A : Type} (limit : Z) (l : list A) : list A :=
  if (limit <? 0)%Z
  then firstn (Z.to_nat (Z.of_nat (length l) + limit)) l
  else firstn (Z.to_nat limit) l.

(** [l.sort(key=lambda x: x["title"])]: a stable sort on titles, compared
    code point by code point. *)
Fixpoint insert_by_title (x : Artwork) (l : list Artwork) : list Artwork :=
  match l with
  | [] => [x]
  | y :: l' =>
      if String.leb (title x) (title y) then x :: y :: l'
      else y :: insert_by_title x l'
  end.

Fixpoint sort_by_title (l : list Artwork) : list Artwork :=
  match l with
  | [] => []
  | x :: l' => insert_by_title x (sort_by_title l')
  end.

(** The test of both fuzzy scans:
    [q in key or q in data["title"].lower()], with [q] already lowercased. *)
Definition fuzzy_hit (q : string) (kv : string * Artwork) : bool :=
  contains q (fst kv) || contains q (lower (title (snd kv))).

(* ================================================================== *)
(** ** get_artwork_status *)

Definition detail_lines (art : Artwork) : list string :=
  let loc := if truthy (location art)
             then ["Location: " ++ location art] else [] in
  let nbh := if truthy (neighborhood art)
             then ["Neighborhood: " ++ neighborhood art] else [] in
  let dsc := if truthy (description art)
             then ["Description excerpt: " ++ description art] else [] in
  (loc ++ nbh ++ dsc)%list.

Definition exact_response (art : Artwork) (include_details : bool) : string :=
  if include_details then
    let details := detail_lines art in
    let details_text :=
      match details with
      | [] => "No additional details available"
      | _ :: _ => join_nl details
      end in
    "Artwork: " ++ title art ++ nl ++ "Status: " ++ status art
      ++ nl ++ nl ++ details_text
  else
    "Artwork: " ++ title art ++ nl ++ "Status: " ++ status art.

(** The scan [for key, data in self.status_db.items()] of the fuzzy branch. *)
Definition fuzzy_matches (db : StatusDb) (artwork_name : string)
  : list Artwork :=
  map snd (filter (fuzzy_hit (lower artwork_name)) (Dict.items db)).

Definition match_line (m : Artwork) : string :=
  title m ++ " - Status: " ++ status m.

Definition fuzzy_response (artwork_name : string) (matches : list Artwork)
  : string :=
  "Could not find exact match for '" ++ artwork_name ++ "', but found "
    ++ str_nat (length matches) ++ " similar artwork(s):" ++ nl ++ nl
    ++ numbered match_line 1 (firstn 5 matches)
    ++ (if (5 <? length matches)%nat
        then nl ++ "And " ++ str_nat (length matches - 5) ++ " more matches."
        else "").

Definition no_match_response (artwork_name : string) : string :=
  "No artwork found matching '" ++ artwork_name ++ "'".

Definition get_artwork_status (db : StatusDb) (artwork_name : string)
  (include_details : bool) : result string :=
  if negb (truthy artwork_name) then
    Returned "Error: No artwork name provided"
  else
    let artwork_key := lower artwork_name in
    if Dict.contains_key db artwork_key then
      art <- getitem db artwork_key ;;
      Returned (exact_response art include_details)
    else
      let matches := fuzzy_matches db artwork_name in
      match matches with
      | _ :: _ => Returned (fuzzy_response artwork_name matches)
      | [] => Returned (no_match_response artwork_name)
      end.

(* ================================================================== *)
(** ** list_active_artworks and list_artworks_by_neighborhood *)

(** One turn of [for data in self.status_db.values()]: skip a seen title,
    otherwise keep the record and remember its title when it passes. *)
Definition collect_step (keep : Artwork -> bool)
  (st : list Artwork * list string) (data : Artwork)
  : list Artwork * list string :=
  let '(acc, seen_titles) := st in
  if existsb (String.eqb (title data)) seen_titles then st
  else if keep data then ((acc ++ [data])%list, title data :: seen_titles)
  else st.

Definition collect (keep : Artwork -> bool) (db : StatusDb) : list Artwork :=
  fst (fold_left (collect_step keep) (Dict.values db) ([], [])).

(** [neighborhood.lower() in data["neighborhood"].lower()], guarded by a
    non-empty record neighborhood. *)
Definition in_neighborhood (nb : string) (data : Artwork) : bool :=
  truthy (neighborhood data)
  && contains (lower nb) (lower (neighborhood data)).

Definition active_keep (nb : string) (data : Artwork) : bool :=
  String.eqb (status data) "In place"
  && (negb (truthy nb) || in_neighborhood nb data).

Definition active_line (art : Artwork) : string :=
  title art
    ++ (if truthy (location art)
        then " - Located at: " ++ location art else "")
    ++ (if truthy (neighborhood art)
        then " (" ++ neighborhood art ++ ")" else "").

(** The sorted list [active_artworks] of [list_active_artworks]. *)
Definition active_artworks (db : StatusDb) (nb : string) : list Artwork :=
  sort_by_title (collect (active_keep nb) db).

(** The trailing sentence of [list_active_artworks], when there is one:
    formatting [len(active_artworks) - limit] may raise. *)
Definition active_more (total : nat) (limit : Z) : result string :=
  if (limit <? Z.of_nat total)%Z
  then n <- str_int (Z.of_nat total - limit) ;;
       Returned (nl ++ "There are " ++ n ++ " more active artworks.")
  else Returned "".

Definition list_active_artworks (db : StatusDb) (nb : string) (limit : Z)
  : result string :=
  let active := active_artworks db nb in
  match active with
  | [] =>
      Returned
        (if truthy nb
         then "No active artworks found in the " ++ nb ++ " neighborhood"
         else "No active artworks found")
  | _ :: _ =>
      let limited_results := slice_to limit active in
      more <- active_more (length active) limit ;;
      Returned
        ("Found " ++ str_nat (length active) ++ " active artworks"
           ++ (if truthy nb then " in or near " ++ nb else "")
           ++ " (showing " ++ str_nat (length limited_results) ++ "):"
           ++ nl ++ nl
           ++ numbered active_line 1 limited_results
           ++ more)
  end.

Definition artworks_in_neighborhood (db : StatusDb) (nb : string)
  : list Artwork :=
  sort_by_title (collect (in_neighborhood nb) db).

(** The trailing sentence of [list_artworks_by_neighborhood], when there
    is one: formatting [len(artworks_in_neighborhood) - limit] may raise. *)
Definition neighborhood_more (total : nat) (limit : Z) : result string :=
  if (limit <? Z.of_nat total)%Z
  then n <- str_int (Z.of_nat total - limit) ;;
       Returned (nl ++ "There are " ++ n
                   ++ " more artworks in this neighborhood.")
  else Returned "".

Definition list_artworks_by_neighborhood (db : StatusDb) (nb : string)
  (limit : Z) : result string :=
  let found := artworks_in_neighborhood db nb in
  match found with
  | [] => Returned ("No artworks found in the " ++ nb ++ " neighborhood.")
  | _ :: _ =>
      let limited_results := slice_to limit found in
      more <- neighborhood_more (length found) limit ;;
      Returned
        ("Found " ++ str_nat (length found) ++ " artworks in " ++ nb
           ++ " (showing " ++ str_nat (length limited_results) ++ "):"
           ++ nl ++ nl
           ++ numbered match_line 1 limited_results
           ++ more)
  end.

(* ================================================================== *)
(** ** compare_artwork_status *)

(** [[name.strip() for name in artwork_names.split(",") if name.strip()]]. *)
Definition names_list (artwork_names : string) : list string :=
  filter truthy (map strip (split_comma artwork_names)).

(** One element of [results]: the dict with ["found": True] and a title
    and status, or the one with ["found": False]. *)
Inductive CompareResult : Type :=
| Found (name title status : string)
| NotFound (name : string).

(** The body of [for name in names_list]: exact key first, then the first
    fuzzy hit in iteration order ([break]). *)
Definition compare_one (db : StatusDb) (nm : string) : result CompareResult :=
  let name_key := lower nm in
  if Dict.contains_key db name_key then
    art <- getitem db name_key ;;
    Returned (Found nm (title art) (status art))
  else
    match find (fuzzy_hit name_key) (Dict.items db) with
    | Some (_, data) => Returned (Found nm (title data) (status data))
    | None => Returned (NotFound nm)
    end.

(** The three lists filled by [for result in results]. *)
Record Buckets : Type := mkBuckets {
  in_place : list string;
  not_in_place : list string;
  not_found : list string
}.

Definition bucket_step (b : Buckets) (r : CompareResult) : Buckets :=
  match r with
  | NotFound nm =>
      mkBuckets (in_place b) (not_in_place b) (not_found b ++ [nm])%list
  | Found _ t s =>
      if String.eqb s "In place"
      then mkBuckets (in_place b ++ [t])%list (not_in_place b) (not_found b)
      else mkBuckets (in_place b)
                     (not_in_place b ++ [(t ++ " (" ++ s ++ ")")%string])%list
                     (not_found b)
  end.

Definition buckets_of (results : list CompareResult) : Buckets :=
  fold_left bucket_step results (mkBuckets [] [] []).

Definition id_line (s : string) : string := s.

Definition render_buckets (b : Buckets) : string :=
  "Artwork Status Comparison:" ++ nl ++ nl
    ++ (match in_place b with
        | [] => ""
        | _ :: _ => "Currently in place:" ++ nl
                      ++ numbered id_line 1 (in_place b) ++ nl
        end)
    ++ (match not_in_place b with
        | [] => ""
        | _ :: _ => "Not currently in place:" ++ nl
                      ++ numbered id_line 1 (not_in_place b) ++ nl
        end)
    ++ (match not_found b with
        | [] => ""
        | _ :: _ => "Not found in database:" ++ nl
                      ++ numbered id_line 1 (not_found b)
        end).

(** The buckets [compare_artwork_status] fills for a list of names. *)
Definition compare_buckets (db : StatusDb) (names : list string)
  : result Buckets :=
  results <- for_each (compare_one db) names ;;
  Returned (buckets_of results).

Definition compare_artwork_status (db : StatusDb) (artwork_names : string)
  : result string :=
  if negb (truthy artwork_names) then
    Returned "Error: No artwork names provided"
  else
    let names := names_list artwork_names in
    match names with
    | [] =>
        Returned "Error: Invalid input format. Please provide a comma-separated list of artwork names."
    | _ :: _ =>
        b <- compare_buckets db names ;;
        Returned (render_buckets b)
    end.

(* ================================================================== *)
(** ** list_known_neighborhoods *)

(** [neighborhoods.add(x)] on a set held as a duplicate-free list. *)
Definition set_add (x : string) (s : list string) : list string :=
  if existsb (String.eqb x) s then s else (s ++ [x])%list.

(** The set filled by [for data in self.status_db.values()]. *)
Definition neighborhood_set (db : StatusDb) : list string :=
  fold_left
    (fun s data =>
       if truthy (neighborhood data) then set_add (neighborhood data) s
       else s)
    (Dict.values db) [].

(** [sorted(l)] on strings, compared code point by code point. *)
Fixpoint insert_string (x : string) (l : list string) : list string :=
  match l with
  | [] => [x]
  | y :: l' =>
      if String.leb x y then x :: y :: l' else y :: insert_string x l'
  end.

Fixpoint sorted_strings (l : list string) : list string :=
  match l with
  | [] => []
  | x :: l' => insert_string x (sorted_strings l')
  end.

(** [neighborhood_list] of [list_known_neighborhoods]. *)
Definition neighborhood_list (db : StatusDb) : list string :=
  sorted_strings (neighborhood_set db).

Definition list_known_neighborhoods (db : StatusDb) : string :=
  match neighborhood_list db with
  | [] => "No known neighborhoods found."
  | _ :: _ =>
      "Known neighborhoods:" ++ nl ++ nl
        ++ join_nl (map (fun n => "- " ++ n) (neighborhood_list db))
  end.

(* ================================================================== *)
(** ** The HTTP routes of api_server.py *)

Module ApiServer.

(** [request.args]: the query parameters, in the order given. *)
Definition Args := list (string * string).

(** [request.args.get(key, default)]: the first value given for [key]. *)
Fixpoint args_get (args : Args) (key default : string) : string :=
  match args with
  | [] => default
  | (k, v) :: args' =>
      if String.eqb k key then v else args_get args' key default
  end.

(** The body built by [jsonify]: [{"error": s}] or [{"result": s}]. *)
Inductive Json : Type :=
| JsonError (s : string)
| JsonResult (s : string).

(** A response: its body and its HTTP status (200 when the view returns
    the body alone). *)
Record Response : Type := mkResponse {
  body : Json;
  http_status : nat
}.

(** The view of [/status]. *)
Definition get_status (db : StatusDb) (args : Args) : result Response :=
  let query := args_get args "q" "" in
  let details :=
    String.eqb (lower (args_get args "details" "false")) "true" in
  if negb (truthy query) then
    Returned (mkResponse (JsonError "No artwork name provided") 400)
  else
    r <- get_artwork_status db query details ;;
    Returned (mkResponse (JsonResult r) 200).

(** The view of [/compare]. *)
Definition compare_artworks (db : StatusDb) (args : Args)
  : result Response :=
  let query := args_get args "q" "" in
  if negb (truthy query) then
    Returned (mkResponse (JsonError "No artwork names provided") 400)
  else
    r <- compare_artwork_status db query ;;
    Returned (mkResponse (JsonResult r) 200).

End ApiServer.

(* ================================================================== *)
(** ** Notions used to state the properties *)

(** The keys one file writes, in the order it writes them. *)
Definition keys_of_file (f : MdFile) : list string :=
  match md_content f with
  | None => []
  | Some c =>
      let art := parse_artwork (md_filename f) c in
      [lower (name art); lower (title art)]
  end.

(** The index invariant as the specification words it: every readable
    file's record is found under its lowercased name, and under its
    lowercased title when that differs. *)
Definition reachable_by_name_and_title (files : list MdFile) : Prop :=
  forall f c,
    In f files -> md_content f = Some c ->
    let art := parse_artwork (md_filename f) c in
    let db := _load_status_database files in
    Dict.get db (lower (name art)) = Some art
    /\ (lower (title art) <> lower (name art) ->
        Dict.get db (lower (title art)) = Some art).

(** Sample files. [twin_removed] and [twin_in_place] carry the same title
    under different file names. *)
Definition sections_of (t s n : option string) : Sections :=
  mkSections t s None None n.

Definition twin_removed : MdFile :=
  mkMdFile "a.md" (Some (sections_of (Some "Twin") (Some "Removed") None)).

Definition twin_in_place : MdFile :=
  mkMdFile "b.md" (Some (sections_of (Some "Twin") (Some "In place") None)).

Definition twin_db : StatusDb :=
  _load_status_database [twin_removed; twin_in_place].

(** A file whose description section runs to 301 characters. *)
Definition long_text : string := string_of_list_ascii (repeat "x"%char 301).

Definition wordy : MdFile :=
  mkMdFile "wordy.md"
    (Some (mkSections None None (Some long_text) None None)).

(** Deduplication by title, first occurrence winning, started from a set
    of titles already seen. *)
Fixpoint dedup_from (seen : list string) (l : list Artwork) : list Artwork :=
  match l with
  | [] => []
  | x :: l' =>
      if existsb (String.eqb (title x)) seen then dedup_from seen l'
      else x :: dedup_from (title x :: seen) l'
  end.

Definition dedup_first_by_title (l : list Artwork) : list Artwork :=
  dedup_from [] l.

(** The specification's reading of the collecting loop: deduplicate the
    index values by title, then filter. *)
Definition dedup_then_filter (keep : Artwork -> bool) (db : StatusDb)
  : list Artwork :=
  filter keep (dedup_first_by_title (Dict.values db)).

(** The other order: filter the index values, then deduplicate by title. *)
Definition filter_then_dedup (keep : Artwork -> bool) (db : StatusDb)
  : list Artwork :=
  dedup_first_by_title (filter keep (Dict.values db)).

(** The bound of the specification on the entries [list_active_artworks]
    lists. *)
Definition listing_within_limit (db : StatusDb) (nb : string) (limit : Z)
  : Prop :=
  (Z.of_nat (length (slice_to limit (active_artworks db nb))) <= limit)%Z.

(** An index no larger than a Python container can be: [len] never
    exceeds [sys.maxsize]. *)
Definition holdable (db : StatusDb) : Prop :=
  (Z.of_nat (length db) <= sys_maxsize)%Z.

(** Totality of [list_active_artworks] as the specification words it: a
    non-empty text for every filter and every limit. *)
Definition listing_always_returns (db : StatusDb) : Prop :=
  forall nb limit,
    exists s, list_active_artworks db nb limit = Returned s /\ s <> "".

(** Two files in place, titled by their file names. *)
Definition pair_db : StatusDb :=
  _load_status_database
    [mkMdFile "a.md" (Some (sections_of None (Some "In place") None));
     mkMdFile "b.md" (Some (sections_of None (Some "In place") None))].

(** What [compare_one] finds for a token, as a function of the token. *)
Definition classify (db : StatusDb) (nm : string) : CompareResult :=
  match Dict.get db (lower nm) with
  | Some art => Found nm (title art) (status art)
  | None =>
      match find (fuzzy_hit (lower nm)) (Dict.items db) with
      | Some (_, data) => Found nm (title data) (status data)
      | None => NotFound nm
      end
  end.

(** The bucket a result goes to, and the text it contributes there. *)
Definition goes_in_place (r : CompareResult) : bool :=
  match r with
  | Found _ _ s => String.eqb s "In place"
  | NotFound _ => false
  end.

Definition goes_not_in_place (r : CompareResult) : bool :=
  match r with
  | Found _ _ s => negb (String.eqb s "In place")
  | NotFound _ => false
  end.

Definition goes_not_found (r : CompareResult) : bool :=
  match r with
  | Found _ _ _ => false
  | NotFound _ => true
  end.

Definition entry (r : CompareResult) : string :=
  match r with
  | Found _ t s =>
      if String.eqb s "In place" then t else t ++ " (" ++ s ++ ")"
  | NotFound nm => nm
  end.

Definition bucket_total (b : Buckets) : nat :=
  length (in_place b) + length (not_in_place b) + length (not_found b).

(** The non-empty trimmed tokens of a comma-separated input, counted with
    repetitions, and counted once each. *)
Definition nonempty_tokens (artwork_names : string) : nat :=
  length (filter (fun t => truthy (strip t)) (split_comma artwork_names)).

Definition distinct_tokens (artwork_names : string) : nat :=
  length (nodup string_dec (names_list artwork_names)).

(** The partition property as the specification words it. *)
Definition partitions_distinct_tokens (db : StatusDb)
  (artwork_names : string) : Prop :=
  exists b,
    compare_buckets db (names_list artwork_names) = Returned b
    /\ bucket_total b = distinct_tokens artwork_names.

(** The answer of [get_artwork_status] when no key equals the query. *)
Definition unmatched_response (artwork_name : string)
  (matches : list Artwork) : string :=
  match matches with
  | [] => no_match_response artwork_name
  | _ :: _ => fuzzy_response artwork_name matches
  end.

(** Case-insensitivity of [get_artwork_status] as the specification words
    it: two names with the same lowercase form get the same text. *)
Definition status_same_for_case_variants (db : StatusDb) (n1 n2 : string)
  (include_details : bool) : Prop :=
  lower n1 = lower n2 ->
  get_artwork_status db n1 include_details
  = get_artwork_status db n2 include_details.

(** A record is listed in a text when its line, without the counter,
    occurs there. *)
Definition listed_in (r : Artwork) (out : string) : bool :=
  contains (match_line r ++ nl) out.

(** The fuzzy superset property as the specification words it. *)
Definition fuzzy_superset_listed (db : StatusDb) (Q : string)
  (include_details : bool) : Prop :=
  Dict.contains_key db (lower Q) = false ->
  forall K r,
    In (K, r) (Dict.items db) ->
    contains (lower Q) (lower K) = true ->
    exists out,
      get_artwork_status db Q include_details = Returned out
      /\ listed_in r out = true.

(** Six files in place, [a1.md] to [a6.md]. *)
Definition in_place_file (fname : string) : MdFile :=
  mkMdFile fname (Some (sections_of None (Some "In place") None)).

Definition six_files : list MdFile :=
  map in_place_file ["a1.md"; "a2.md"; "a3.md"; "a4.md"; "a5.md"; "a6.md"].

Definition six_db : StatusDb := _load_status_database six_files.

(** The two-record directory of the specification's scenario. *)
Definition scenario_db : StatusDb :=
  _load_status_database
    [mkMdFile "Digital Orca.md"
       (Some (sections_of None (Some "In place") (Some "Downtown")));
     mkMdFile "The Drop.md"
       (Some (sections_of None (Some " Removed ") (Some "Downtown")));
     mkMdFile "unreadable.md" None].

(** A file whose text could be read. *)
Definition readable (f : MdFile) : bool :=
  match md_content f with
  | Some _ => true
  | None => false
  end.

(** The orders the two sorts are meant to establish. *)
Definition title_le (a b : Artwork) : Prop :=
  String.leb (title a) (title b) = true.

Definition string_le (a b : string) : Prop := String.leb a b = true.

(** No whitespace in front. *)
Definition head_not_space (s : string) : bool :=
  match s with
  | EmptyString => true
  | String c _ => negb (isspace c)
  end.

(** No comma inside. *)
Fixpoint comma_free (s : string) : bool :=
  match s with
  | EmptyString => true
  | String c s' => negb (Ascii.eqb c ",") && comma_free s'
  end.

(** Insertion sort on a string key, of which [sort_by_title] and
    [sorted_strings] are the two instances in the program. *)
Fixpoint insert_key {A : Type} (key : A -> string) (x : A) (l : list A)
  : list A :=
  match l with
  | [] => [x]
  | y :: l' =>
      if String.leb (key x) (key y) then x :: y :: l'
      else y :: insert_key key x l'
  end.

Fixpoint sort_key {A : Type} (key : A -> string) (l : list A) : list A :=
  match l with
  | [] => []
  | x :: l' => insert_key key x (sort_key key l')
  end.

Definition key_le {A : Type} (key : A -> string) (a b : A) : Prop :=
  String.leb (key a) (key b) = true.

(* ================================================================== *)
(** * Properties *)

(** ** Strings *)

Section StringFacts.

Lemma truthy_false_iff (s : string) : truthy s = false <-> s = "".
Proof. destruct s; simpl; split; congruence. Qed.

Lemma truthy_true_iff (s : string) : truthy s = true <-> s <> "".
Proof. destruct s; simpl; split; congruence. Qed.

Lemma lower_char_idem (c : ascii) : lower_char (lower_char c) = lower_char c.
Proof. destruct c as [[] [] [] [] [] [] [] []]; reflexivity. Qed.

Lemma lower_idem (s : string) : lower (lower s) = lower s.
Proof.
  induction s as [|c s IH]; simpl; [reflexivity|].
  now rewrite lower_char_idem, IH.
Qed.

Lemma lower_length (s : string) : String.length (lower s) = String.length s.
Proof. induction s; simpl; congruence. Qed.

Lemma lower_empty (s : string) : lower s = "" -> s = "".
Proof. destruct s; simpl; [reflexivity | discriminate]. Qed.

Lemma append_assoc (a b c : string) : (a ++ b) ++ c = a ++ (b ++ c).
Proof. induction a; simpl; congruence. Qed.

Lemma append_empty_r (a : string) : a ++ "" = a.
Proof. induction a; simpl; congruence. Qed.

Lemma prefix_append (a b : string) : prefix a (a ++ b) = true.
Proof.
  induction a as [|c a IH]; simpl.
  - now destruct b.
  - destruct (ascii_dec c c); [exact IH | congruence].
Qed.

Lemma contains_prefix (n h : string) :
  prefix n h = true -> contains n h = true.
Proof. destruct h; simpl; intros ->; reflexivity. Qed.

Lemma contains_here (a b : string) : contains a (a ++ b) = true.
Proof. apply contains_prefix, prefix_append. Qed.

Lemma contains_skip (n p h : string) :
  contains n h = true -> contains n (p ++ h) = true.
Proof.
  intros H. induction p as [|c p IH]; simpl; [exact H|].
  rewrite IH. apply orb_true_r.
Qed.

(** A needle placed anywhere inside a string is found there. *)
Lemma contains_middle (p n s : string) : contains n (p ++ n ++ s) = true.
Proof. apply contains_skip, contains_here. Qed.

Lemma take_length (n : nat) (s : string) :
  n <= String.length s -> String.length (take n s) = n.
Proof.
  unfold take. revert s.
  induction n as [|n IH]; intros [|c s] H; simpl in *; try lia;
    try reflexivity.
  rewrite IH; lia.
Qed.

Lemma take_prefix (n : nat) (s : string) :
  exists rest, s = take n s ++ rest.
Proof.
  unfold take. revert s.
  induction n as [|n IH]; intros [|c s]; simpl.
  - now exists "".
  - now exists (String c s).
  - now exists "".
  - destruct (IH s) as [rest E]. exists rest. now rewrite <- E.
Qed.

End StringFacts.

(** ** The dictionary *)

Section DictFacts.
Context {V : Type}.
Implicit Types (d : Dict.dict V) (k : string) (v : V).

Lemma contains_key_get d k :
  Dict.contains_key d k = true <-> exists v, Dict.get d k = Some v.
Proof.
  induction d as [|[k' v'] d IH]; simpl.
  - split; [discriminate | intros [v H]; discriminate].
  - destruct (String.eqb k' k); simpl; [|exact IH].
    split; [eauto | reflexivity].
Qed.

Lemma contains_key_false_get d k :
  Dict.contains_key d k = false <-> Dict.get d k = None.
Proof.
  induction d as [|[k' v'] d IH]; simpl; [tauto|].
  destruct (String.eqb k' k); simpl; [|exact IH].
  split; discriminate.
Qed.

Lemma get_set_same d k v : Dict.get (Dict.set d k v) k = Some v.
Proof.
  induction d as [|[k' v'] d IH]; simpl.
  - now rewrite String.eqb_refl.
  - destruct (String.eqb k' k) eqn:E; simpl.
    + now rewrite String.eqb_refl.
    + now rewrite E.
Qed.

Lemma get_set_other d k k' v :
  k <> k' -> Dict.get (Dict.set d k v) k' = Dict.get d k'.
Proof.
  intros Hne. induction d as [|[k0 v0] d IH]; simpl.
  - apply String.eqb_neq in Hne. now rewrite Hne.
  - destruct (String.eqb k0 k) eqn:E; simpl.
    + apply String.eqb_eq in E. subst k0.
      apply String.eqb_neq in Hne. now rewrite Hne.
    + now rewrite IH.
Qed.

Lemma in_set d k v k0 v0 :
  In (k0, v0) (Dict.set d k v) -> (k0, v0) = (k, v) \/ In (k0, v0) d.
Proof.
  induction d as [|[k' v'] d IH]; simpl.
  - intros [H | []]. now left.
  - destruct (String.eqb k' k); simpl.
    + intros [H | H]; [now left | now right; right].
    + intros [H | H]; [now right; left |].
      destruct (IH H); [now left | now right; right].
Qed.

Lemma get_in d k v : Dict.get d k = Some v -> In (k, v) d.
Proof.
  induction d as [|[k' v'] d IH]; simpl; [discriminate|].
  destruct (String.eqb k' k) eqn:E.
  - apply String.eqb_eq in E. intros [= ->]. subst. now left.
  - intros H. right. now apply IH.
Qed.

End DictFacts.

Lemma getitem_present (db : StatusDb) (k : string) :
  Dict.contains_key db k = true -> exists art, getitem db k = Returned art.
Proof.
  intros H. apply contains_key_get in H. destruct H as [art H].
  exists art. unfold getitem. now rewrite H.
Qed.

(** ** The loader *)

Section LoaderFacts.

(** What a readable file does to the index, with the [negb] resolved. *)
Lemma load_file_readable (db : StatusDb) (f : MdFile) (c : Sections) :
  md_content f = Some c ->
  forall art, art = parse_artwork (md_filename f) c ->
  load_file db f =
    if String.eqb (lower (title art)) (lower (name art))
    then Dict.set db (lower (name art)) art
    else Dict.set (Dict.set db (lower (name art)) art)
                  (lower (title art)) art.
Proof.
  intros Hc art ->. unfold load_file. rewrite Hc. cbv zeta.
  now destruct (String.eqb _ _).
Qed.

Lemma keys_of_file_readable (f : MdFile) (c : Sections) :
  md_content f = Some c ->
  forall art, art = parse_artwork (md_filename f) c ->
  keys_of_file f = [lower (name art); lower (title art)].
Proof. intros Hc art ->. unfold keys_of_file. now rewrite Hc. Qed.

Lemma load_file_get_untouched (db : StatusDb) (f : MdFile) (k : string) :
  ~ In k (keys_of_file f) ->
  Dict.get (load_file db f) k = Dict.get db k.
Proof.
  destruct (md_content f) as [c|] eqn:Hc.
  - remember (parse_artwork (md_filename f) c) as art eqn:Ha.
    rewrite (keys_of_file_readable f c Hc art Ha),
            (load_file_readable db f c Hc art Ha).
    intros H.
    assert (lower (name art) <> k) by (intros E; apply H; now left).
    assert (lower (title art) <> k) by (intros E; apply H; right; now left).
    destruct (String.eqb _ _);
      now rewrite ?get_set_other by assumption.
  - intros _. unfold load_file. now rewrite Hc.
Qed.

Lemma load_file_get_name (db : StatusDb) (f : MdFile) (c : Sections) :
  md_content f = Some c ->
  forall art, art = parse_artwork (md_filename f) c ->
  Dict.get (load_file db f) (lower (name art)) = Some art.
Proof.
  intros Hc art Ha. rewrite (load_file_readable db f c Hc art Ha).
  destruct (String.eqb _ _) eqn:E.
  - apply get_set_same.
  - apply String.eqb_neq in E.
    rewrite get_set_other by exact E. apply get_set_same.
Qed.

Lemma load_file_get_title (db : StatusDb) (f : MdFile) (c : Sections) :
  md_content f = Some c ->
  forall art, art = parse_artwork (md_filename f) c ->
  Dict.get (load_file db f) (lower (title art)) = Some art.
Proof.
  intros Hc art Ha. rewrite (load_file_readable db f c Hc art Ha).
  destruct (String.eqb _ _) eqn:E.
  - apply String.eqb_eq in E. rewrite E. apply get_set_same.
  - apply get_set_same.
Qed.

Lemma load_rest_get_untouched (post : list MdFile) (db : StatusDb)
  (k : string) :
  Forall (fun g => ~ In k (keys_of_file g)) post ->
  Dict.get (fold_left load_file post db) k = Dict.get db k.
Proof.
  revert db. induction post as [|g post IH]; intros db H; simpl.
  - reflexivity.
  - inversion H as [|? ? Hg Hpost]; subst.
    rewrite IH by assumption. now apply load_file_get_untouched.
Qed.

(** Every entry of a loaded index was written by a readable file. *)
Lemma load_file_entries (db : StatusDb) (f : MdFile) k art :
  In (k, art) (load_file db f) ->
  In (k, art) db
  \/ exists c, md_content f = Some c
               /\ art = parse_artwork (md_filename f) c
               /\ In k (keys_of_file f).
Proof.
  destruct (md_content f) as [c|] eqn:Hc.
  - remember (parse_artwork (md_filename f) c) as a eqn:Ha.
    rewrite (keys_of_file_readable f c Hc a Ha),
            (load_file_readable db f c Hc a Ha).
    destruct (String.eqb _ _); intros H.
    + apply in_set in H. destruct H as [[= -> ->] | H]; [right | now left].
      exists c. split; [reflexivity | split; [assumption | now left]].
    + apply in_set in H. destruct H as [[= -> ->] | H].
      { right. exists c.
        split; [reflexivity | split; [assumption | right; now left]]. }
      apply in_set in H. destruct H as [[= -> ->] | H]; [right | now left].
      exists c. split; [reflexivity | split; [assumption | now left]].
  - unfold load_file. rewrite Hc. now left.
Qed.

Lemma load_entries (files : list MdFile) (db : StatusDb) k art :
  In (k, art) (fold_left load_file files db) ->
  In (k, art) db
  \/ exists f c, In f files /\ md_content f = Some c
                 /\ art = parse_artwork (md_filename f) c
                 /\ In k (keys_of_file f).
Proof.
  revert db. induction files as [|g files IH]; intros db H; simpl in *.
  - now left.
  - apply IH in H. destruct H as [H | (f & c & Hin & Hc & Ha & Hk)].
    + apply load_file_entries in H.
      destruct H as [H | (c & Hc & Ha & Hk)]; [now left | right].
      exists g, c. auto.
    + right. exists f, c. auto.
Qed.

End LoaderFacts.

(** ** Claims about the loader *)

Lemma contains_key_set_mono {V : Type} (d : Dict.dict V) (k k' : string)
  (v : V) :
  Dict.contains_key d k' = true ->
  Dict.contains_key (Dict.set d k v) k' = true.
Proof.
  induction d as [|[k0 v0] d IH]; simpl; [discriminate|].
  destruct (String.eqb k0 k) eqn:E; simpl.
  - apply String.eqb_eq in E. subst k0. trivial.
  - destruct (String.eqb k0 k'); simpl; auto.
Qed.

Lemma load_file_keeps_keys (db : StatusDb) (f : MdFile) (k : string) :
  Dict.contains_key db k = true ->
  Dict.contains_key (load_file db f) k = true.
Proof.
  intros H. unfold load_file. destruct (md_content f) as [c|]; [|exact H].
  cbv zeta. destruct (negb _); auto using contains_key_set_mono.
Qed.

Lemma load_rest_keeps_keys (post : list MdFile) (db : StatusDb) (k : string) :
  Dict.contains_key db k = true ->
  Dict.contains_key (fold_left load_file post db) k = true.
Proof.
  revert db. induction post as [|g post IH]; intros db H; simpl; [exact H|].
  apply IH, load_file_keeps_keys, H.
Qed.

(** C1, as stated, fails: with two files of the same title, the first
    file's record is no longer found under that title once the second file
    has been loaded. *)
Lemma reachable_by_name_and_title_fails :
  ~ reachable_by_name_and_title [twin_removed; twin_in_place].
Proof.
  intros H.
  destruct (H twin_removed (sections_of (Some "Twin") (Some "Removed") None))
    as [_ Ht]; [now left | reflexivity |].
  cbv zeta in Ht.
  assert (Hne : lower "Twin" <> lower "a") by (vm_compute; discriminate).
  specialize (Ht Hne). vm_compute in Ht. discriminate.
Qed.

(** C1, amended: after the whole directory is loaded, the record of a
    readable file is found under its lowercased name, and under its
    lowercased title, each provided no file loaded after it writes that
    same key; either key stays present in the index in any case. *)
Theorem load_reachable_unless_overwritten
  (pre post : list MdFile) (f : MdFile) (c : Sections) :
  md_content f = Some c ->
  let art := parse_artwork (md_filename f) c in
  let db := _load_status_database (pre ++ f :: post) in
  (Forall (fun g => ~ In (lower (name art)) (keys_of_file g)) post ->
   Dict.get db (lower (name art)) = Some art)
  /\ (Forall (fun g => ~ In (lower (title art)) (keys_of_file g)) post ->
      Dict.get db (lower (title art)) = Some art)
  /\ Dict.contains_key db (lower (name art)) = true
  /\ Dict.contains_key db (lower (title art)) = true.
Proof.
  intros Hc art db. subst db. unfold _load_status_database.
  rewrite fold_left_app. simpl.
  set (db0 := fold_left load_file pre []).
  pose proof (load_file_get_name db0 f c Hc art eq_refl) as Hn.
  pose proof (load_file_get_title db0 f c Hc art eq_refl) as Ht.
  repeat split.
  - intros H. now rewrite load_rest_get_untouched.
  - intros H. now rewrite load_rest_get_untouched.
  - apply load_rest_keeps_keys, contains_key_get. eauto.
  - apply load_rest_keeps_keys, contains_key_get. eauto.
Qed.

Lemma load_reachable_unless_overwritten_witness :
  let db := _load_status_database [twin_removed; twin_in_place; wordy] in
  Dict.get db "b" = Some (parse_artwork "b.md"
    (sections_of (Some "Twin") (Some "In place") None))
  /\ Dict.get db "twin" = Some (parse_artwork "b.md"
    (sections_of (Some "Twin") (Some "In place") None)).
Proof.
  destruct (load_reachable_unless_overwritten
              [twin_removed] [wordy] twin_in_place
              (sections_of (Some "Twin") (Some "In place") None) eq_refl)
    as (Hn & Ht & _).
  split; [apply Hn | apply Ht];
    (constructor; [vm_compute; intuition discriminate | constructor]).
Defined.

(** C8: every record in a loaded index stores the parsed description
    unchanged when it has at most 300 characters, and otherwise its first
    300 characters followed by ["..."]. *)
Theorem loaded_description_excerpt
  (files : list MdFile) (k : string) (art : Artwork) :
  In (k, art) (Dict.items (_load_status_database files)) ->
  exists f c,
    In f files /\ md_content f = Some c
    /\ art = parse_artwork (md_filename f) c
    /\ let raw := group_or (description_match c) "" in
       (String.length raw <= 300 -> description art = raw)
       /\ (300 < String.length raw ->
           description art = take 300 raw ++ "..."
           /\ String.length (take 300 raw) = 300
           /\ exists rest, raw = take 300 raw ++ rest).
Proof.
  intros H. apply load_entries in H.
  destruct H as [[] | (f & c & Hin & Hc & Ha & _)].
  exists f, c. repeat split; try assumption.
  - intros Hlen. subst art. simpl. unfold excerpt.
    destruct (Nat.ltb_spec 300 (String.length (group_or (description_match c) "")));
      [lia | reflexivity].
  - subst art. simpl. unfold excerpt.
    destruct (Nat.ltb_spec 300 (String.length (group_or (description_match c) "")));
      [reflexivity | lia].
  - apply take_length. lia.
  - apply take_prefix.
Qed.

Lemma loaded_description_excerpt_witness :
  exists f c,
    In f [wordy] /\ md_content f = Some c
    /\ parse_artwork "wordy.md"
         (mkSections None None (Some long_text) None None)
       = parse_artwork (md_filename f) c
    /\ let raw := group_or (description_match c) "" in
       (String.length raw <= 300 ->
        description (parse_artwork "wordy.md"
          (mkSections None None (Some long_text) None None)) = raw)
       /\ (300 < String.length raw ->
           description (parse_artwork "wordy.md"
             (mkSections None None (Some long_text) None None))
           = take 300 raw ++ "..."
           /\ String.length (take 300 raw) = 300
           /\ exists rest, raw = take 300 raw ++ rest).
Proof.
  apply (loaded_description_excerpt [wordy] "wordy").
  vm_compute. now left.
Defined.

(** ** Claims about list_active_artworks *)

Lemma collect_loop (keep : Artwork -> bool) (l : list Artwork)
  (acc : list Artwork) (seen : list string) :
  fst (fold_left (collect_step keep) l (acc, seen))
  = (acc ++ dedup_from seen (filter keep l))%list.
Proof.
  revert acc seen. induction l as [|x l IH]; intros acc seen; simpl.
  - now rewrite app_nil_r.
  - destruct (existsb (String.eqb (title x)) seen) eqn:Eseen.
    + rewrite IH. destruct (keep x); simpl; [now rewrite Eseen | reflexivity].
    + destruct (keep x); simpl.
      * rewrite IH, Eseen, <- app_assoc. reflexivity.
      * apply IH.
Qed.

Lemma collect_filter_then_dedup (keep : Artwork -> bool) (db : StatusDb) :
  collect keep db = filter_then_dedup keep db.
Proof. unfold collect. now rewrite collect_loop. Qed.

Lemma insert_by_title_length (x : Artwork) (l : list Artwork) :
  length (insert_by_title x l) = S (length l).
Proof.
  induction l as [|y l IH]; simpl; [reflexivity|].
  destruct (String.leb (title x) (title y)); simpl; congruence.
Qed.

Lemma sort_by_title_length (l : list Artwork) :
  length (sort_by_title l) = length l.
Proof.
  induction l as [|x l IH]; simpl; [reflexivity|].
  now rewrite insert_by_title_length, IH.
Qed.

Lemma sort_by_title_nil (l : list Artwork) : sort_by_title l = [] -> l = [].
Proof.
  intros H. apply length_zero_iff_nil.
  now rewrite <- sort_by_title_length, H.
Qed.

(** C3, as stated, fails: with a removed and an in-place record of the
    same title, deduplicating before filtering leaves nothing, while
    the loop keeps the in-place record, which the listing then shows. *)
Lemma dedup_before_filter_fails :
  dedup_then_filter (active_keep "") twin_db = []
  /\ collect (active_keep "") twin_db
     = [parse_artwork "b.md"
          (sections_of (Some "Twin") (Some "In place") None)]
  /\ collect (active_keep "") twin_db
     <> dedup_then_filter (active_keep "") twin_db
  /\ list_active_artworks twin_db "" 5
     = Returned ("Found 1 active artworks (showing 1):" ++ nl ++ nl
                   ++ "1. Twin" ++ nl).
Proof.
  repeat split; try reflexivity. vm_compute. discriminate.
Qed.

(** C3, amended: [list_active_artworks] deduplicates by title among the
    records that pass the status and neighborhood filter: what it sorts
    and lists is the first record of each title, in index-iteration order,
    among those that pass; a record that fails the filter never hides a
    later one of the same title. *)
Theorem list_active_filters_then_dedups (db : StatusDb) (nb : string) :
  collect (active_keep nb) db
  = dedup_first_by_title (filter (active_keep nb) (Dict.values db))
  /\ active_artworks db nb
     = sort_by_title
         (dedup_first_by_title (filter (active_keep nb) (Dict.values db))).
Proof.
  unfold active_artworks. now rewrite collect_filter_then_dedup.
Qed.

Lemma slice_to_length_le {A : Type} (limit : Z) (l : list A) :
  (0 <= limit)%Z -> (Z.of_nat (length (slice_to limit l)) <= limit)%Z.
Proof.
  intros H. unfold slice_to.
  destruct (Z.ltb_spec limit 0); [lia|].
  rewrite length_firstn. lia.
Qed.

Lemma str_int_small (z : Z) :
  (Z.abs z < str_digits_bound)%Z -> str_int z = Returned (decimal z).
Proof.
  intros H. unfold str_int.
  destruct (Z.leb_spec str_digits_bound (Z.abs z)); [lia | reflexivity].
Qed.

Lemma str_int_huge (z : Z) :
  (str_digits_bound <= Z.abs z)%Z -> str_int z = Raised ValueError.
Proof.
  intros H. unfold str_int.
  destruct (Z.leb_spec str_digits_bound (Z.abs z)); [reflexivity | lia].
Qed.

Lemma sys_maxsize_small : (sys_maxsize < str_digits_bound)%Z.
Proof. vm_compute. reflexivity. Qed.

Lemma dedup_from_length (seen : list string) (l : list Artwork) :
  length (dedup_from seen l) <= length l.
Proof.
  revert seen. induction l as [|x l IH]; intros seen; simpl; [lia|].
  destruct (existsb _ seen); simpl;
    [specialize (IH seen) | specialize (IH (title x :: seen))]; lia.
Qed.

Lemma collected_length (keep : Artwork -> bool) (db : StatusDb) :
  length (sort_by_title (collect keep db)) <= length db.
Proof.
  rewrite sort_by_title_length, collect_filter_then_dedup.
  unfold filter_then_dedup, dedup_first_by_title.
  pose proof (dedup_from_length [] (filter keep (Dict.values db))) as H1.
  pose proof (filter_length_le keep (Dict.values db)) as H2.
  unfold Dict.values in *. rewrite length_map in H2. lia.
Qed.

Lemma slice_to_nonneg {A : Type} (limit : Z) (l : list A) :
  (0 <= limit)%Z -> slice_to limit l = firstn (Z.to_nat limit) l.
Proof.
  intros H. unfold slice_to. destruct (Z.ltb_spec limit 0); [lia|].
  reflexivity.
Qed.

(** The trailing sentence, case by case. *)
Lemma active_more_cases (total : nat) (limit : Z) :
  ((Z.of_nat total <= limit)%Z -> active_more total limit = Returned "")
  /\ ((limit < Z.of_nat total)%Z ->
      (Z.of_nat total - limit < str_digits_bound)%Z ->
      active_more total limit
      = Returned (nl ++ "There are " ++ decimal (Z.of_nat total - limit)
                    ++ " more active artworks."))
  /\ ((str_digits_bound <= Z.of_nat total - limit)%Z ->
      active_more total limit = Raised ValueError).
Proof.
  pose proof sys_maxsize_small as Hbig.
  assert (Hpos : (0 < sys_maxsize)%Z) by (vm_compute; reflexivity).
  unfold active_more.
  destruct (Z.ltb_spec limit (Z.of_nat total)); repeat split; intros;
    try lia; try reflexivity.
  - rewrite str_int_small by lia. reflexivity.
  - rewrite str_int_huge by lia. reflexivity.
Qed.

Lemma neighborhood_more_cases (total : nat) (limit : Z) :
  ((Z.of_nat total <= limit)%Z -> neighborhood_more total limit = Returned "")
  /\ ((limit < Z.of_nat total)%Z ->
      (Z.of_nat total - limit < str_digits_bound)%Z ->
      neighborhood_more total limit
      = Returned (nl ++ "There are " ++ decimal (Z.of_nat total - limit)
                    ++ " more artworks in this neighborhood."))
  /\ ((str_digits_bound <= Z.of_nat total - limit)%Z ->
      neighborhood_more total limit = Raised ValueError).
Proof.
  pose proof sys_maxsize_small as Hbig.
  assert (Hpos : (0 < sys_maxsize)%Z) by (vm_compute; reflexivity).
  unfold neighborhood_more.
  destruct (Z.ltb_spec limit (Z.of_nat total)); repeat split; intros;
    try lia; try reflexivity.
  - rewrite str_int_small by lia. reflexivity.
  - rewrite str_int_huge by lia. reflexivity.
Qed.

(** C6, as stated, fails: a negative limit slices from the end, so with
    two matching records and limit -1 one entry is listed, more than the
    limit. *)
Lemma listing_within_limit_fails :
  list_active_artworks pair_db "" (-1)
  = Returned ("Found 2 active artworks (showing 1):" ++ nl ++ nl
                ++ "1. a" ++ nl ++ nl ++ "There are 3 more active artworks.")
  /\ ~ listing_within_limit pair_db "" (-1).
Proof.
  split; [reflexivity|]. unfold listing_within_limit. vm_compute.
  intros H. now apply H.
Qed.

(** C6, amended: for every index (of at most [sys.maxsize] entries, as
    any Python dictionary), neighborhood filter and non-negative limit,
    the text [list_active_artworks] returns lists exactly the first
    [limit] matching artworks of the sorted list, so at most [limit]
    entries, and when the number of matching records exceeds the limit it
    ends with the sentence reporting that number minus the limit. *)
Theorem list_active_limit (db : StatusDb) (nb : string) (limit : Z) :
  holdable db ->
  (0 <= limit)%Z ->
  let active := active_artworks db nb in
  let shown := firstn (Z.to_nat limit) active in
  (Z.of_nat (length shown) <= limit)%Z
  /\ list_active_artworks db nb limit
     = Returned
         (match active with
          | [] =>
              if truthy nb
              then "No active artworks found in the " ++ nb ++ " neighborhood"
              else "No active artworks found"
          | _ :: _ =>
              "Found " ++ str_nat (length active) ++ " active artworks"
                ++ (if truthy nb then " in or near " ++ nb else "")
                ++ " (showing " ++ str_nat (length shown) ++ "):"
                ++ nl ++ nl
                ++ numbered active_line 1 shown
                ++ (if (limit <? Z.of_nat (length active))%Z
                    then nl ++ "There are "
                           ++ decimal (Z.of_nat (length active) - limit)
                           ++ " more active artworks."
                    else "")
          end).
Proof.
  intros Hfit Hlimit active shown.
  split; [unfold shown; rewrite length_firstn; lia|].
  pose proof (collected_length (active_keep nb) db) as Hlen.
  fold (active_artworks db nb) in Hlen. fold active in Hlen.
  pose proof sys_maxsize_small as Hbig. unfold holdable in Hfit.
  unfold list_active_artworks. fold active.
  destruct (active_more_cases (length active) limit) as (Hnone & Hsome & _).
  destruct active as [|a0 rest] eqn:E; [reflexivity|].
  cbv zeta. rewrite (slice_to_nonneg limit (a0 :: rest) Hlimit).
  fold shown.
  destruct (Z.ltb_spec limit (Z.of_nat (length (a0 :: rest)))).
  - rewrite Hsome by lia. reflexivity.
  - rewrite Hnone by lia. reflexivity.
Qed.

Lemma list_active_limit_witness :
  list_active_artworks pair_db "" 1
  = Returned ("Found 2 active artworks (showing 1):" ++ nl ++ nl
                ++ "1. a" ++ nl ++ nl ++ "There are 1 more active artworks.").
Proof.
  destruct (list_active_limit pair_db "" 1) as [_ H].
  - unfold holdable. vm_compute. discriminate.
  - lia.
  - rewrite H. reflexivity.
Defined.

(** ** Claims about compare_artwork_status *)

Lemma compare_one_classify (db : StatusDb) (nm : string) :
  compare_one db nm = Returned (classify db nm).
Proof.
  unfold compare_one, classify, getitem. cbv zeta.
  destruct (Dict.contains_key db (lower nm)) eqn:E.
  - apply contains_key_get in E. destruct E as [art ->]. reflexivity.
  - apply contains_key_false_get in E. rewrite E.
    destruct (find _ _) as [[k data]|]; reflexivity.
Qed.

Lemma for_each_compare (db : StatusDb) (names : list string) :
  for_each (compare_one db) names = Returned (map (classify db) names).
Proof.
  induction names as [|nm names IH]; simpl; [reflexivity|].
  now rewrite compare_one_classify, IH.
Qed.

Lemma bucket_step_single (b : Buckets) (r : CompareResult) :
  bucket_step b r
  = mkBuckets
      (in_place b ++ map entry (filter goes_in_place [r]))%list
      (not_in_place b ++ map entry (filter goes_not_in_place [r]))%list
      (not_found b ++ map entry (filter goes_not_found [r]))%list.
Proof.
  destruct b as [i n f], r as [nm t s | nm]; cbn -[String.eqb append].
  - destruct (String.eqb s "In place") eqn:E; cbn -[String.eqb append];
      rewrite ?E; now rewrite !app_nil_r.
  - now rewrite !app_nil_r.
Qed.

Lemma bucket_loop (rs : list CompareResult) (b : Buckets) :
  fold_left bucket_step rs b
  = mkBuckets
      (in_place b ++ map entry (filter goes_in_place rs))%list
      (not_in_place b ++ map entry (filter goes_not_in_place rs))%list
      (not_found b ++ map entry (filter goes_not_found rs))%list.
Proof.
  revert b. induction rs as [|r rs IH]; intros b.
  - destruct b. simpl. now rewrite !app_nil_r.
  - change (fold_left bucket_step (r :: rs) b)
      with (fold_left bucket_step rs (bucket_step b r)).
    rewrite IH, bucket_step_single.
    change (r :: rs) with ([r] ++ rs)%list.
    rewrite !filter_app, !map_app.
    cbn [in_place not_in_place not_found].
    now rewrite <- !app_assoc.
Qed.

Lemma buckets_of_filters (rs : list CompareResult) :
  buckets_of rs
  = mkBuckets (map entry (filter goes_in_place rs))
              (map entry (filter goes_not_in_place rs))
              (map entry (filter goes_not_found rs)).
Proof. unfold buckets_of. now rewrite bucket_loop. Qed.

Lemma bucket_total_length (rs : list CompareResult) :
  bucket_total (buckets_of rs) = length rs.
Proof.
  rewrite buckets_of_filters. unfold bucket_total.
  cbn [in_place not_in_place not_found]. rewrite !length_map.
  induction rs as [|r rs IH]; [reflexivity|].
  destruct r as [nm t s | nm]; cbn -[String.eqb];
    [destruct (String.eqb s "In place")|]; cbn -[String.eqb]; lia.
Qed.

Lemma compare_buckets_classify (db : StatusDb) (names : list string) :
  compare_buckets db names = Returned (buckets_of (map (classify db) names)).
Proof. unfold compare_buckets. now rewrite for_each_compare. Qed.

Lemma names_list_length (artwork_names : string) :
  length (names_list artwork_names) = nonempty_tokens artwork_names.
Proof.
  unfold names_list, nonempty_tokens.
  induction (split_comma artwork_names) as [|t l IH]; simpl; [reflexivity|].
  destruct (truthy (strip t)); simpl; congruence.
Qed.

Lemma names_list_nonempty_input (artwork_names : string) :
  names_list artwork_names <> [] -> truthy artwork_names = true.
Proof. destruct artwork_names; [intros H; now elim H | reflexivity]. Qed.

Lemma compare_renders_buckets (db : StatusDb) (artwork_names : string) :
  names_list artwork_names <> [] ->
  compare_artwork_status db artwork_names
  = Returned (render_buckets
                (buckets_of (map (classify db) (names_list artwork_names)))).
Proof.
  intros Hne. unfold compare_artwork_status.
  rewrite (names_list_nonempty_input _ Hne). cbv zeta.
  rewrite compare_buckets_classify.
  destruct (names_list artwork_names) as [|n0 rest]; [congruence|].
  reflexivity.
Qed.

(** C2, as stated, fails: a repeated token is counted once among the
    distinct tokens but fills two bucket entries. *)
Lemma partitions_distinct_tokens_fails :
  ~ partitions_distinct_tokens pair_db "a,a".
Proof.
  intros (b & Hb & Htotal). vm_compute in Hb.
  injection Hb as <-. vm_compute in Htotal. discriminate.
Qed.

(** C2, amended: for every index and every comma-separated input, the
    three buckets of [compare_artwork_status] partition the input: their
    sizes add up to the number of non-empty trimmed input tokens, each
    counted as often as it occurs. *)
Theorem compare_buckets_partition (db : StatusDb) (artwork_names : string) :
  exists b,
    compare_buckets db (names_list artwork_names) = Returned b
    /\ bucket_total b = nonempty_tokens artwork_names
    /\ (names_list artwork_names <> [] ->
        compare_artwork_status db artwork_names
        = Returned (render_buckets b)).
Proof.
  exists (buckets_of (map (classify db) (names_list artwork_names))).
  split; [apply compare_buckets_classify|]. split.
  - now rewrite bucket_total_length, length_map, names_list_length.
  - apply compare_renders_buckets.
Qed.

Lemma compare_buckets_partition_witness :
  exists b,
    compare_buckets pair_db (names_list "a, zz ,a") = Returned b
    /\ bucket_total b = 3
    /\ compare_artwork_status pair_db "a, zz ,a"
       = Returned (render_buckets b).
Proof.
  destruct (compare_buckets_partition pair_db "a, zz ,a")
    as (b & Hb & Htotal & Hout).
  exists b. split; [exact Hb|]. split; [exact Htotal|].
  apply Hout. vm_compute. discriminate.
Defined.

(** C10: each token yields one result, in input order, and each bucket
    is the sub-list of those results that belong to it, in that same
    order; a repeated token yields a result, and so an entry, per
    occurrence. The rendered text numbers each bucket in list order. *)
Theorem compare_keeps_input_order (db : StatusDb) (artwork_names : string) :
  let names := names_list artwork_names in
  let results := map (classify db) names in
  for_each (compare_one db) names = Returned results
  /\ (exists b,
        compare_buckets db names = Returned b
        /\ in_place b = map entry (filter goes_in_place results)
        /\ not_in_place b = map entry (filter goes_not_in_place results)
        /\ not_found b = map entry (filter goes_not_found results)
        /\ bucket_total b = length names
        /\ (names <> [] ->
            compare_artwork_status db artwork_names
            = Returned (render_buckets b))).
Proof.
  intros names results. split; [apply for_each_compare|].
  exists (buckets_of results).
  split; [apply compare_buckets_classify|].
  split; [now rewrite buckets_of_filters|].
  split; [now rewrite buckets_of_filters|].
  split; [now rewrite buckets_of_filters|].
  split.
  - unfold results. now rewrite bucket_total_length, length_map.
  - apply compare_renders_buckets.
Qed.

Lemma compare_keeps_input_order_witness :
  compare_artwork_status twin_db "b, zz, a, b ,yy"
  = Returned ("Artwork Status Comparison:" ++ nl ++ nl
      ++ "Currently in place:" ++ nl
      ++ "1. Twin" ++ nl ++ "2. Twin" ++ nl ++ nl
      ++ "Not currently in place:" ++ nl
      ++ "1. Twin (Removed)" ++ nl ++ nl
      ++ "Not found in database:" ++ nl
      ++ "1. zz" ++ nl ++ "2. yy" ++ nl).
Proof.
  destruct (compare_keeps_input_order twin_db "b, zz, a, b ,yy")
    as (_ & b & Hb & Hi & Hn & Hf & _ & Hout).
  rewrite Hout by (vm_compute; discriminate).
  destruct b as [i n f]. simpl in Hi, Hn, Hf. subst i n f. reflexivity.
Defined.

(** ** Claims about get_artwork_status *)

Lemma status_exact (db : StatusDb) (n : string) (d : bool) :
  n <> "" ->
  Dict.contains_key db (lower n) = true ->
  exists art,
    Dict.get db (lower n) = Some art
    /\ get_artwork_status db n d = Returned (exact_response art d).
Proof.
  intros Hn Hk. unfold get_artwork_status.
  apply truthy_true_iff in Hn. rewrite Hn. cbv zeta. rewrite Hk.
  apply contains_key_get in Hk. destruct Hk as [art Hart].
  exists art. split; [exact Hart|]. unfold getitem. now rewrite Hart.
Qed.

Lemma status_unmatched (db : StatusDb) (n : string) (d : bool) :
  n <> "" ->
  Dict.contains_key db (lower n) = false ->
  get_artwork_status db n d
  = Returned (unmatched_response n (fuzzy_matches db n)).
Proof.
  intros Hn Hk. unfold get_artwork_status.
  apply truthy_true_iff in Hn. rewrite Hn. cbv zeta. rewrite Hk.
  unfold unmatched_response. now destruct (fuzzy_matches db n).
Qed.

Lemma status_empty_name (db : StatusDb) (d : bool) :
  get_artwork_status db "" d = Returned "Error: No artwork name provided".
Proof. reflexivity. Qed.

(** C4, as stated, fails: when no key equals the lowercased query, the
    answer quotes the query as typed, so two spellings of one name get
    different texts, in the fuzzy answer and in the not-found answer. *)
Lemma status_same_for_case_variants_fails :
  ~ status_same_for_case_variants twin_db "tw" "TW" false
  /\ ~ status_same_for_case_variants twin_db "zz" "ZZ" false.
Proof.
  split; intros H; specialize (H eq_refl); vm_compute in H; discriminate.
Qed.

(** C4, amended: the lookup of [get_artwork_status] is case-insensitive.
    For two names with the same lowercase form, the answers are identical
    when that form is a key of the index (or the names are empty);
    otherwise both answers are built from the same list of fuzzy matches
    and differ only in the query they quote. *)
Theorem status_lookup_case_insensitive
  (db : StatusDb) (n1 n2 : string) (d : bool) :
  lower n1 = lower n2 ->
  (Dict.contains_key db (lower n1) = true \/ n1 = "" ->
   get_artwork_status db n1 d = get_artwork_status db n2 d)
  /\ (Dict.contains_key db (lower n1) = false -> n1 <> "" ->
      fuzzy_matches db n1 = fuzzy_matches db n2
      /\ get_artwork_status db n1 d
         = Returned (unmatched_response n1 (fuzzy_matches db n1))
      /\ get_artwork_status db n2 d
         = Returned (unmatched_response n2 (fuzzy_matches db n1))).
Proof.
  intros Hlow. split.
  - intros [Hk | ->].
    + destruct (string_dec n1 "") as [-> | Hn1].
      { symmetry in Hlow. apply lower_empty in Hlow. now subst n2. }
      assert (Hn2 : n2 <> "").
      { intros ->. apply Hn1. now apply lower_empty. }
      destruct (status_exact db n1 d Hn1 Hk) as (a1 & G1 & ->).
      rewrite Hlow in Hk, G1.
      destruct (status_exact db n2 d Hn2 Hk) as (a2 & G2 & ->).
      congruence.
    + symmetry in Hlow. apply lower_empty in Hlow. now subst n2.
  - intros Hk Hn1.
    assert (Hn2 : n2 <> "").
    { intros ->. apply Hn1. now apply lower_empty. }
    assert (Hm : fuzzy_matches db n1 = fuzzy_matches db n2)
      by (unfold fuzzy_matches; now rewrite Hlow).
    split; [exact Hm|]. split.
    + now apply status_unmatched.
    + rewrite Hm. apply status_unmatched; [exact Hn2 | now rewrite <- Hlow].
Qed.

Lemma status_lookup_case_insensitive_witness :
  get_artwork_status twin_db "twin" true
  = get_artwork_status twin_db "TWIN" true
  /\ get_artwork_status twin_db "tw" false
     = Returned (unmatched_response "tw" (fuzzy_matches twin_db "tw"))
  /\ get_artwork_status twin_db "TW" false
     = Returned (unmatched_response "TW" (fuzzy_matches twin_db "tw")).
Proof.
  split.
  - apply (status_lookup_case_insensitive twin_db "twin" "TWIN" true);
      [reflexivity | now left].
  - apply (status_lookup_case_insensitive twin_db "tw" "TW" false);
      [reflexivity | reflexivity | discriminate].
Defined.

Lemma numbered_nth {A : Type} (fmt : A -> string) (l : list A)
  (j i : nat) (x : A) :
  nth_error l i = Some x ->
  exists p s,
    numbered fmt j l = p ++ (str_nat (j + i) ++ ". " ++ fmt x ++ nl) ++ s.
Proof.
  revert j i. induction l as [|y l IH]; intros j [|i] H; simpl in H;
    try discriminate.
  - injection H as ->. exists "", (numbered fmt (S j) l).
    rewrite Nat.add_0_r. cbn [numbered].
    rewrite !append_assoc. reflexivity.
  - destruct (IH (S j) i H) as (p & s & E).
    exists (str_nat j ++ ". " ++ fmt y ++ nl ++ p), s.
    cbn [numbered]. rewrite E, <- Nat.add_succ_comm.
    rewrite !append_assoc. reflexivity.
Qed.

Lemma fuzzy_response_lists (Q : string) (matches : list Artwork)
  (i : nat) (r : Artwork) :
  i < 5 -> nth_error matches i = Some r ->
  contains (str_nat (S i) ++ ". " ++ match_line r ++ nl)
           (fuzzy_response Q matches) = true.
Proof.
  intros Hi Hnth.
  assert (Hfirst : nth_error (firstn 5 matches) i = Some r).
  { rewrite nth_error_firstn.
    destruct (Nat.ltb_spec i 5); [exact Hnth | lia]. }
  destruct (numbered_nth match_line _ 1 i r Hfirst) as (p & s & E).
  change (1 + i) with (S i) in E.
  remember (str_nat (S i) ++ ". " ++ match_line r ++ nl) as line.
  unfold fuzzy_response. rewrite E.
  do 7 apply contains_skip.
  rewrite !append_assoc. apply contains_middle.
Qed.

Lemma fuzzy_matches_in (db : StatusDb) (Q K : string) (r : Artwork) :
  In (K, r) (Dict.items db) ->
  contains (lower Q) K = true ->
  In r (fuzzy_matches db Q).
Proof.
  intros Hin Hsub. unfold fuzzy_matches.
  change r with (snd (K, r)). apply in_map, filter_In.
  split; [exact Hin|]. unfold fuzzy_hit. simpl. now rewrite Hsub.
Qed.

Lemma loaded_keys_lower (files : list MdFile) (K : string) (r : Artwork) :
  In (K, r) (Dict.items (_load_status_database files)) -> lower K = K.
Proof.
  intros H. apply load_entries in H.
  destruct H as [[] | (f & c & _ & Hc & _ & Hk)].
  rewrite (keys_of_file_readable f c Hc _ eq_refl) in Hk.
  destruct Hk as [<- | [<- | []]]; apply lower_idem.
Qed.

(** C5, as stated, fails: only the first five matches are listed, so the
    sixth key containing the query is matched but not listed; and for the
    empty query, a substring of every key, the answer is the input error. *)
Lemma fuzzy_superset_listed_fails :
  ~ fuzzy_superset_listed six_db "a" false
  /\ ~ fuzzy_superset_listed six_db "" false.
Proof.
  split; intros H.
  - destruct (H eq_refl "a6"
                (parse_artwork "a6.md"
                   (sections_of None (Some "In place") None)))
      as (out & Hout & Hlisted).
    + vm_compute. tauto.
    + reflexivity.
    + vm_compute in Hout. injection Hout as <-.
      vm_compute in Hlisted. discriminate.
  - destruct (H eq_refl "a1"
                (parse_artwork "a1.md"
                   (sections_of None (Some "In place") None)))
      as (out & Hout & Hlisted).
    + vm_compute. tauto.
    + reflexivity.
    + vm_compute in Hout. injection Hout as <-.
      vm_compute in Hlisted. discriminate.
Qed.

(** C5, amended: for every loaded index and every non-empty query Q with
    no exact (lowercased) match, if Q is a case-insensitive substring of a
    key K, then K's record is among the fuzzy matches the answer of
    status(Q) is built from, and it is listed in that answer whenever it
    is one of the first five matches in index-iteration order. *)
Theorem fuzzy_matches_superset
  (files : list MdFile) (Q K : string) (r : Artwork) (d : bool) :
  let db := _load_status_database files in
  Q <> "" ->
  Dict.contains_key db (lower Q) = false ->
  In (K, r) (Dict.items db) ->
  contains (lower Q) (lower K) = true ->
  let matches := fuzzy_matches db Q in
  get_artwork_status db Q d = Returned (fuzzy_response Q matches)
  /\ In r matches
  /\ (forall i, i < 5 -> nth_error matches i = Some r ->
      contains (str_nat (S i) ++ ". " ++ match_line r ++ nl)
               (fuzzy_response Q matches) = true).
Proof.
  intros db HQ Hk Hin Hsub matches.
  rewrite (loaded_keys_lower files K r Hin) in Hsub.
  assert (Hr : In r matches) by (eapply fuzzy_matches_in; eassumption).
  split; [|split; [exact Hr|]].
  - rewrite status_unmatched by assumption. fold matches.
    destruct matches; [destruct Hr | reflexivity].
  - intros i Hi Hnth. now apply fuzzy_response_lists.
Qed.

Lemma fuzzy_matches_superset_witness :
  let r := parse_artwork "a2.md" (sections_of None (Some "In place") None) in
  let matches := fuzzy_matches six_db "A" in
  get_artwork_status six_db "A" false = Returned (fuzzy_response "A" matches)
  /\ In r matches
  /\ contains ("2. a2 - Status: In place" ++ nl)
              (fuzzy_response "A" matches) = true.
Proof.
  intros r matches.
  destruct (fuzzy_matches_superset six_files "A" "a2" r false) as (Hout & Hr & Hl).
  - discriminate.
  - reflexivity.
  - vm_compute. tauto.
  - reflexivity.
  - split; [exact Hout|]. split; [exact Hr|].
    apply (Hl 1); [lia | reflexivity].
Defined.

(** ** Input errors and totality *)

Lemma literal_append_nonempty (c : ascii) (a b : string) :
  String c a ++ b <> "".
Proof. simpl. discriminate. Qed.

Lemma names_list_empty_input : names_list "" = [].
Proof. reflexivity. Qed.

(** C7: on the empty string, [compare_artwork_status] and
    [get_artwork_status] each return (they do not raise) a non-empty error
    text, the two texts differ, and an input that is not empty but has no
    non-empty trimmed token gets a format error that differs from the
    empty-input error of [compare_artwork_status]. *)
Theorem empty_input_errors (db : StatusDb) (d : bool) :
  compare_artwork_status db "" = Returned "Error: No artwork names provided"
  /\ get_artwork_status db "" d = Returned "Error: No artwork name provided"
  /\ "Error: No artwork names provided" <> ""
  /\ "Error: No artwork name provided" <> ""
  /\ "Error: No artwork names provided" <> "Error: No artwork name provided"
  /\ (forall artwork_names,
        artwork_names <> "" -> names_list artwork_names = [] ->
        exists e,
          compare_artwork_status db artwork_names = Returned e
          /\ e = "Error: Invalid input format. Please provide a comma-separated list of artwork names."
          /\ e <> "Error: No artwork names provided"
          /\ e <> "").
Proof.
  repeat (split; [first [reflexivity | discriminate]|]).
  intros s Hs Hnames. eexists. split.
  - unfold compare_artwork_status.
    apply truthy_true_iff in Hs. rewrite Hs. cbv zeta. rewrite Hnames.
    reflexivity.
  - repeat split; discriminate.
Qed.

Lemma empty_input_errors_witness :
  exists e,
    compare_artwork_status twin_db " , ," = Returned e
    /\ e <> "Error: No artwork names provided"
    /\ e <> "".
Proof.
  destruct (empty_input_errors twin_db false) as (_ & _ & _ & _ & _ & H).
  destruct (H " , ,") as (e & He & _ & Hd & Hn);
    [discriminate | reflexivity |].
  exists e. auto.
Defined.

Lemma exact_response_nonempty (art : Artwork) (d : bool) :
  exact_response art d <> "".
Proof. destruct d; apply literal_append_nonempty. Qed.

Lemma unmatched_response_nonempty (n : string) (matches : list Artwork) :
  unmatched_response n matches <> "".
Proof. destruct matches; apply literal_append_nonempty. Qed.

Lemma status_returns (db : StatusDb) (n : string) (d : bool) :
  exists s, get_artwork_status db n d = Returned s /\ s <> "".
Proof.
  destruct (string_dec n "") as [-> | Hn].
  { eexists. split; [reflexivity | discriminate]. }
  destruct (Dict.contains_key db (lower n)) eqn:Hk.
  - destruct (status_exact db n d Hn Hk) as (art & _ & ->).
    eexists. split; [reflexivity | apply exact_response_nonempty].
  - rewrite status_unmatched by assumption.
    eexists. split; [reflexivity | apply unmatched_response_nonempty].
Qed.

Lemma compare_returns (db : StatusDb) (artwork_names : string) :
  exists s, compare_artwork_status db artwork_names = Returned s /\ s <> "".
Proof.
  destruct (names_list artwork_names) as [|n0 rest] eqn:E.
  - unfold compare_artwork_status.
    destruct (truthy artwork_names); cbn [negb]; cbv zeta; rewrite ?E;
      eexists; (split; [reflexivity | discriminate]).
  - rewrite compare_renders_buckets by (rewrite E; discriminate).
    eexists. split; [reflexivity | apply literal_append_nonempty].
Qed.

Lemma list_active_returns (db : StatusDb) (nb : string) (limit : Z) :
  holdable db ->
  (sys_maxsize - str_digits_bound < limit)%Z ->
  exists s, list_active_artworks db nb limit = Returned s /\ s <> "".
Proof.
  intros Hfit Hlimit. unfold holdable in Hfit.
  pose proof (collected_length (active_keep nb) db) as Hlen.
  fold (active_artworks db nb) in Hlen.
  unfold list_active_artworks.
  destruct (active_more_cases (length (active_artworks db nb)) limit)
    as (Hnone & Hsome & _).
  destruct (active_artworks db nb) as [|a0 rest].
  - eexists. split; [reflexivity|].
    destruct (truthy nb);
      first [apply literal_append_nonempty | discriminate].
  - cbv zeta. destruct (Z.ltb_spec limit (Z.of_nat (length (a0 :: rest)))).
    + rewrite Hsome by lia. eexists.
      split; [reflexivity | apply literal_append_nonempty].
    + rewrite Hnone by lia. eexists.
      split; [reflexivity | apply literal_append_nonempty].
Qed.

Lemma list_by_neighborhood_returns (db : StatusDb) (nb : string)
  (limit : Z) :
  holdable db ->
  (sys_maxsize - str_digits_bound < limit)%Z ->
  exists s,
    list_artworks_by_neighborhood db nb limit = Returned s /\ s <> "".
Proof.
  intros Hfit Hlimit. unfold holdable in Hfit.
  pose proof (collected_length (in_neighborhood nb) db) as Hlen.
  fold (artworks_in_neighborhood db nb) in Hlen.
  unfold list_artworks_by_neighborhood.
  destruct (neighborhood_more_cases
              (length (artworks_in_neighborhood db nb)) limit)
    as (Hnone & Hsome & _).
  destruct (artworks_in_neighborhood db nb) as [|a0 rest].
  - eexists. split; [reflexivity | apply literal_append_nonempty].
  - cbv zeta. destruct (Z.ltb_spec limit (Z.of_nat (length (a0 :: rest)))).
    + rewrite Hsome by lia. eexists.
      split; [reflexivity | apply literal_append_nonempty].
    + rewrite Hnone by lia. eexists.
      split; [reflexivity | apply literal_append_nonempty].
Qed.

Lemma str_int_raises (z : Z) (e : exn) :
  str_int z = Raised e -> e = ValueError /\ (str_digits_bound <= Z.abs z)%Z.
Proof.
  unfold str_int. destruct (Z.leb_spec str_digits_bound (Z.abs z));
    [intros [= <-]; auto | discriminate].
Qed.

Lemma list_active_raises (db : StatusDb) (nb : string) (limit : Z)
  (e : exn) :
  list_active_artworks db nb limit = Raised e ->
  e = ValueError
  /\ (str_digits_bound
      <= Z.of_nat (length (active_artworks db nb)) - limit)%Z.
Proof.
  unfold list_active_artworks, active_more.
  destruct (active_artworks db nb) as [|a0 rest]; [discriminate|].
  cbv zeta.
  destruct (Z.ltb_spec limit (Z.of_nat (length (a0 :: rest))));
    [|discriminate].
  destruct (str_int _) as [n|e'] eqn:En; [discriminate|].
  intros [= <-]. apply str_int_raises in En. split; [tauto | lia].
Qed.

Lemma list_by_neighborhood_raises (db : StatusDb) (nb : string)
  (limit : Z) (e : exn) :
  list_artworks_by_neighborhood db nb limit = Raised e ->
  e = ValueError
  /\ (str_digits_bound
      <= Z.of_nat (length (artworks_in_neighborhood db nb)) - limit)%Z.
Proof.
  unfold list_artworks_by_neighborhood, neighborhood_more.
  destruct (artworks_in_neighborhood db nb) as [|a0 rest]; [discriminate|].
  cbv zeta.
  destruct (Z.ltb_spec limit (Z.of_nat (length (a0 :: rest))));
    [|discriminate].
  destruct (str_int _) as [n|e'] eqn:En; [discriminate|].
  intros [= <-]. apply str_int_raises in En. split; [tauto | lia].
Qed.

(** C9, as stated, fails: with two matching artworks and the limit
    -(10^4300 - 1), the number [list_active_artworks] has to format for
    its closing sentence has 4301 digits, and the call raises
    [ValueError]. *)
Lemma listing_always_returns_fails :
  list_active_artworks pair_db "" (1 - 10 ^ 4300) = Raised ValueError
  /\ ~ listing_always_returns pair_db.
Proof.
  assert (H : list_active_artworks pair_db "" (1 - 10 ^ 4300)
              = Raised ValueError) by (vm_compute; reflexivity).
  split; [exact H|].
  intros Hall. destruct (Hall "" (1 - 10 ^ 4300)%Z) as (s & Hs & _).
  rewrite H in Hs. discriminate.
Qed.

(** C9, amended: on every index and every input, [get_artwork_status] and
    [compare_artwork_status] return a non-empty text and do not raise.
    [list_active_artworks] and [list_artworks_by_neighborhood] return a
    non-empty text and do not raise for every limit above
    [sys.maxsize - 10^4300], so for every non-negative limit, on an index
    of at most [sys.maxsize] entries; they raise nothing but [ValueError],
    and only when the count [len - limit] they format for the closing
    sentence reaches [10^4300]. On the empty index a lookup that passes
    input validation gets the operation's not-found wording, whatever the
    limit. *)
Theorem queries_return_text (db : StatusDb) :
  (forall n d, exists s, get_artwork_status db n d = Returned s /\ s <> "")
  /\ (forall names,
        exists s, compare_artwork_status db names = Returned s /\ s <> "")
  /\ (forall nb limit,
        holdable db -> (sys_maxsize - str_digits_bound < limit)%Z ->
        exists s, list_active_artworks db nb limit = Returned s /\ s <> "")
  /\ (forall nb limit,
        holdable db -> (sys_maxsize - str_digits_bound < limit)%Z ->
        exists s,
          list_artworks_by_neighborhood db nb limit = Returned s /\ s <> "")
  /\ (forall nb limit e,
        list_active_artworks db nb limit = Raised e ->
        e = ValueError
        /\ (str_digits_bound
            <= Z.of_nat (length (active_artworks db nb)) - limit)%Z)
  /\ (forall nb limit e,
        list_artworks_by_neighborhood db nb limit = Raised e ->
        e = ValueError
        /\ (str_digits_bound
            <= Z.of_nat (length (artworks_in_neighborhood db nb)) - limit)%Z)
  /\ (sys_maxsize - str_digits_bound < 0)%Z
  /\ (forall n d, n <> "" ->
        get_artwork_status [] n d
        = Returned ("No artwork found matching '" ++ n ++ "'"))
  /\ (forall nb limit,
        list_active_artworks [] nb limit
        = Returned
            (if truthy nb
             then "No active artworks found in the " ++ nb ++ " neighborhood"
             else "No active artworks found"))
  /\ (forall names, names_list names <> [] ->
        compare_artwork_status [] names
        = Returned ("Artwork Status Comparison:" ++ nl ++ nl
                      ++ "Not found in database:" ++ nl
                      ++ numbered id_line 1 (names_list names)))
  /\ (forall nb limit,
        list_artworks_by_neighborhood [] nb limit
        = Returned ("No artworks found in the " ++ nb ++ " neighborhood.")).
Proof.
  split; [intros; apply status_returns|].
  split; [intros; apply compare_returns|].
  split; [intros; now apply list_active_returns|].
  split; [intros; now apply list_by_neighborhood_returns|].
  split; [intros nb limit e; apply list_active_raises|].
  split; [intros nb limit e; apply list_by_neighborhood_raises|].
  split; [pose proof sys_maxsize_small; lia|].
  split; [|split; [reflexivity | split; [|reflexivity]]].
  - intros n d Hn. now rewrite status_unmatched.
  - intros names Hne. rewrite compare_renders_buckets by exact Hne.
    rewrite buckets_of_filters. f_equal.
    assert (Hall : forall l,
               map (classify []) l = map NotFound l)
      by (intros l; apply map_ext; reflexivity).
    rewrite Hall. clear Hall.
    assert (Hi : forall l, filter goes_in_place (map NotFound l) = [])
      by (induction l; simpl; auto).
    assert (Hn : forall l, filter goes_not_in_place (map NotFound l) = [])
      by (induction l; simpl; auto).
    assert (Hf : forall l : list string,
               map entry (filter goes_not_found (map NotFound l)) = l)
      by (induction l; simpl; congruence).
    unfold render_buckets. cbn [in_place not_in_place not_found].
    rewrite Hi, Hn, Hf. cbn [map].
    destruct (names_list names); [congruence | reflexivity].
Qed.

Lemma queries_return_text_witness :
  get_artwork_status [] "Ghost" true
  = Returned "No artwork found matching 'Ghost'"
  /\ compare_artwork_status [] "Ghost, Orca"
     = Returned ("Artwork Status Comparison:" ++ nl ++ nl
                   ++ "Not found in database:" ++ nl
                   ++ "1. Ghost" ++ nl ++ "2. Orca" ++ nl)
  /\ (exists s, list_active_artworks pair_db "" (-7) = Returned s /\ s <> "")
  /\ (exists s,
        list_artworks_by_neighborhood scenario_db "down" 0 = Returned s
        /\ s <> "").
Proof.
  destruct (queries_return_text [])
    as (_ & _ & _ & _ & _ & _ & _ & Hs & _ & Hc & _).
  destruct (queries_return_text pair_db) as (_ & _ & Ha & _).
  destruct (queries_return_text scenario_db)
    as (_ & _ & _ & Hn & _ & _ & Hneg & _).
  split; [apply Hs; discriminate|].
  split; [rewrite Hc by (vm_compute; discriminate); reflexivity|].
  split.
  - apply Ha; [unfold holdable; vm_compute; discriminate
              | vm_compute; reflexivity].
  - apply Hn; [unfold holdable; vm_compute; discriminate
              | vm_compute; reflexivity].
Defined.

(** ** The scenario of the specification, run on the model *)

Example scenario_keys :
  Dict.keys scenario_db = ["digital orca"; "the drop"].
Proof. reflexivity. Qed.

Example scenario_status :
  get_artwork_status scenario_db "DIGITAL ORCA" true
  = Returned ("Artwork: Digital Orca" ++ nl ++ "Status: In place" ++ nl ++ nl
                ++ "Neighborhood: Downtown").
Proof. reflexivity. Qed.

Example scenario_list_active :
  list_active_artworks scenario_db "Downtown" 5
  = Returned
      ("Found 1 active artworks in or near Downtown (showing 1):" ++ nl ++ nl
         ++ "1. Digital Orca (Downtown)" ++ nl).
Proof. reflexivity. Qed.

Example scenario_compare :
  compare_artwork_status scenario_db "Digital Orca,The Drop,Ghost"
  = Returned ("Artwork Status Comparison:" ++ nl ++ nl
                ++ "Currently in place:" ++ nl
                ++ "1. Digital Orca" ++ nl ++ nl
                ++ "Not currently in place:" ++ nl
                ++ "1. The Drop (Removed)" ++ nl ++ nl
                ++ "Not found in database:" ++ nl
                ++ "1. Ghost" ++ nl).
Proof. reflexivity. Qed.

Example scenario_by_neighborhood :
  list_artworks_by_neighborhood scenario_db "down" 1
  = Returned
      ("Found 2 artworks in down (showing 1):" ++ nl ++ nl
         ++ "1. Digital Orca - Status: In place" ++ nl ++ nl
         ++ "There are 1 more artworks in this neighborhood.").
Proof. reflexivity. Qed.

(* ================================================================== *)
(** * Further properties of the loader *)

Section DictInvariant.
Context {V : Type}.
Implicit Types (d : Dict.dict V) (k : string) (v : V).

Lemma keys_set_in d k v k' :
  In k' (Dict.keys (Dict.set d k v)) <-> k' = k \/ In k' (Dict.keys d).
Proof.
  unfold Dict.keys. induction d as [|[k0 v0] d IH]; simpl.
  - intuition congruence.
  - destruct (String.eqb k0 k) eqn:E; simpl.
    + apply String.eqb_eq in E. subst k0. intuition congruence.
    + rewrite IH. intuition congruence.
Qed.

Lemma keys_set_nodup d k v :
  NoDup (Dict.keys d) -> NoDup (Dict.keys (Dict.set d k v)).
Proof.
  unfold Dict.keys. induction d as [|[k0 v0] d IH]; simpl; intros H.
  - constructor; [intros [] | constructor].
  - inversion H as [|? ? Hnotin Hrest]; subst.
    destruct (String.eqb k0 k) eqn:E; simpl.
    + apply String.eqb_eq in E. subst k0. now constructor.
    + constructor; [|now apply IH].
      intros Hin. apply (keys_set_in d k v k0) in Hin.
      apply String.eqb_neq in E. destruct Hin; [congruence | contradiction].
Qed.

Lemma nodup_in_get d k v :
  NoDup (Dict.keys d) -> In (k, v) d -> Dict.get d k = Some v.
Proof.
  unfold Dict.keys. induction d as [|[k0 v0] d IH]; simpl; intros H Hin.
  - destruct Hin.
  - inversion H as [|? ? Hnotin Hrest]; subst.
    destruct Hin as [[= -> ->] | Hin].
    + now rewrite String.eqb_refl.
    + destruct (String.eqb k0 k) eqn:E; [|now apply IH].
      apply String.eqb_eq in E. subst k0. elim Hnotin.
      change k with (fst (k, v)). now apply in_map.
Qed.

Lemma length_set_bounds d k v :
  length d <= length (Dict.set d k v) <= S (length d).
Proof.
  induction d as [|[k0 v0] d IH]; simpl; [lia|].
  destruct (String.eqb k0 k); simpl; lia.
Qed.

Lemma length_set_pos d k v : 1 <= length (Dict.set d k v).
Proof.
  destruct d as [|[k0 v0] d]; simpl; [lia|].
  destruct (String.eqb k0 k); simpl; lia.
Qed.

End DictInvariant.

Lemma load_file_nodup (db : StatusDb) (f : MdFile) :
  NoDup (Dict.keys db) -> NoDup (Dict.keys (load_file db f)).
Proof.
  intros H. unfold load_file. destruct (md_content f) as [c|]; [|exact H].
  cbv zeta. destruct (negb _); auto using keys_set_nodup.
Qed.

Lemma load_rest_nodup (files : list MdFile) (db : StatusDb) :
  NoDup (Dict.keys db) -> NoDup (Dict.keys (fold_left load_file files db)).
Proof.
  revert db. induction files as [|f files IH]; intros db H; simpl; [exact H|].
  apply IH, load_file_nodup, H.
Qed.

(** X1: a loaded index is a proper dictionary: its keys are pairwise
    distinct, and an entry is among its items exactly when looking its key
    up gives its record. *)
Theorem loaded_index_coherent (files : list MdFile) :
  let db := _load_status_database files in
  NoDup (Dict.keys db)
  /\ (forall k r, In (k, r) (Dict.items db) <-> Dict.get db k = Some r).
Proof.
  intros db.
  assert (Hnd : NoDup (Dict.keys db)) by (apply load_rest_nodup; constructor).
  split; [exact Hnd|]. intros k r. split.
  - now apply nodup_in_get.
  - apply get_in.
Qed.

(** X2: every key of a loaded index is in lowercase and is the lowercased
    file name or the lowercased title of the very record stored under it. *)
Theorem loaded_key_of_own_record
  (files : list MdFile) (k : string) (r : Artwork) :
  In (k, r) (Dict.items (_load_status_database files)) ->
  (k = lower (name r) \/ k = lower (title r)) /\ lower k = k.
Proof.
  intros H. split; [|now apply (loaded_keys_lower files k r)].
  apply load_entries in H.
  destruct H as [[] | (f & c & _ & Hc & Hr & Hk)].
  rewrite (keys_of_file_readable f c Hc r Hr) in Hk.
  destruct Hk as [<- | [<- | []]]; auto.
Qed.

Lemma loaded_key_of_own_record_witness :
  ("the drop" = lower "The Drop" \/ "the drop" = lower "The Drop")
  /\ lower "the drop" = "the drop".
Proof.
  apply (loaded_key_of_own_record
           [mkMdFile "The Drop.md"
              (Some (sections_of None (Some "Removed") None))]
           "the drop"
           (parse_artwork "The Drop.md"
              (sections_of None (Some "Removed") None))).
  vm_compute. now left.
Defined.

Lemma load_skips_unreadable (files : list MdFile) (db : StatusDb) :
  fold_left load_file files db
  = fold_left load_file (filter readable files) db.
Proof.
  revert db. induction files as [|f files IH]; intros db; simpl.
  - reflexivity.
  - unfold readable at 1. unfold load_file at 2.
    destruct (md_content f) as [c|] eqn:Hc; simpl.
    + rewrite IH. unfold load_file at 3. now rewrite Hc.
    + apply IH.
Qed.

(** X3: a file that cannot be read leaves no trace: loading a directory
    gives the same index as loading its readable files alone. *)
Theorem unreadable_files_ignored (files : list MdFile) :
  _load_status_database files
  = _load_status_database (filter readable files).
Proof. apply load_skips_unreadable. Qed.

Lemma append_length (a b : string) :
  String.length (a ++ b) = String.length a + String.length b.
Proof. induction a; simpl; congruence. Qed.

Lemma take_length_le (n : nat) (s : string) : String.length (take n s) <= n.
Proof.
  unfold take. revert s.
  induction n as [|n IH]; intros [|c s]; simpl; try lia.
  specialize (IH s). lia.
Qed.

Lemma excerpt_length (s : string) : String.length (excerpt s) <= 303.
Proof.
  unfold excerpt. destruct (Nat.ltb_spec 300 (String.length s)); [|lia].
  rewrite append_length. pose proof (take_length_le 300 s). simpl. lia.
Qed.

(** X4: no record of a loaded index stores a description longer than 303
    characters (300 of the text and the three dots). *)
Theorem loaded_description_bounded
  (files : list MdFile) (k : string) (r : Artwork) :
  In (k, r) (Dict.items (_load_status_database files)) ->
  String.length (description r) <= 303.
Proof.
  intros H. apply load_entries in H.
  destruct H as [[] | (f & c & _ & _ & -> & _)].
  apply excerpt_length.
Qed.

Lemma loaded_description_bounded_witness :
  String.length
    (description (parse_artwork "wordy.md"
       (mkSections None None (Some long_text) None None))) <= 303.
Proof.
  apply (loaded_description_bounded [wordy] "wordy").
  vm_compute. now left.
Defined.

(** X5: loading then looking up is a round trip: a query that equals, up
    to letter case, the file name or the title of a readable file gets the
    exact answer for that file's record, provided the query is not empty
    and no file loaded later writes the same key. *)
Theorem status_finds_loaded_record
  (pre post : list MdFile) (f : MdFile) (c : Sections) (q : string)
  (d : bool) :
  md_content f = Some c ->
  let art := parse_artwork (md_filename f) c in
  q <> "" ->
  lower q = lower (name art) \/ lower q = lower (title art) ->
  Forall (fun g => ~ In (lower q) (keys_of_file g)) post ->
  get_artwork_status (_load_status_database (pre ++ f :: post)) q d
  = Returned (exact_response art d).
Proof.
  intros Hc art Hq Hkey Hpost.
  assert (Hget : Dict.get (_load_status_database (pre ++ f :: post))
                          (lower q) = Some art).
  { unfold _load_status_database. rewrite fold_left_app. simpl.
    rewrite load_rest_get_untouched by exact Hpost.
    destruct Hkey as [-> | ->].
    - now apply (load_file_get_name _ f c).
    - now apply (load_file_get_title _ f c). }
  assert (Hk : Dict.contains_key (_load_status_database (pre ++ f :: post))
                                 (lower q) = true)
    by (apply contains_key_get; eauto).
  destruct (status_exact _ q d Hq Hk) as (a & Ha & ->).
  congruence.
Qed.

Lemma status_finds_loaded_record_witness :
  get_artwork_status
    (_load_status_database [twin_removed; twin_in_place; wordy]) "TWIN" false
  = Returned ("Artwork: Twin" ++ nl ++ "Status: In place").
Proof.
  apply (status_finds_loaded_record [twin_removed] [wordy] twin_in_place
           (sections_of (Some "Twin") (Some "In place") None) "TWIN" false
           eq_refl).
  - discriminate.
  - now right.
  - constructor; [vm_compute; intuition discriminate | constructor].
Defined.

Lemma load_file_length (db : StatusDb) (f : MdFile) :
  length db <= length (load_file db f)
  /\ length (load_file db f) <= length db + (if readable f then 2 else 0)
  /\ (readable f = true -> 1 <= length (load_file db f)).
Proof.
  unfold load_file, readable.
  destruct (md_content f) as [c|];
    [|split; [lia | split; [lia | discriminate]]].
  cbv zeta.
  set (a := parse_artwork (md_filename f) c).
  pose proof (length_set_bounds db (lower (name a)) a) as H1.
  pose proof (length_set_bounds (Dict.set db (lower (name a)) a)
                (lower (title a)) a) as H2.
  pose proof (length_set_pos db (lower (name a)) a) as H3.
  destruct (negb _); repeat split; lia.
Qed.

Lemma load_rest_length (files : list MdFile) (db : StatusDb) :
  length db <= length (fold_left load_file files db)
  /\ length (fold_left load_file files db)
     <= length db + 2 * length (filter readable files).
Proof.
  revert db. induction files as [|f files IH]; intros db; simpl; [lia|].
  destruct (IH (load_file db f)) as [Hlo Hhi].
  destruct (load_file_length db f) as (H1 & H2 & _).
  destruct (readable f); simpl in *; lia.
Qed.

(** X6: the number of keys the loader reports is at most twice the number
    of readable files, and is at least one as soon as one file is
    readable. *)
Theorem loaded_index_size (files : list MdFile) :
  length (_load_status_database files)
  <= 2 * length (filter readable files)
  /\ (filter readable files <> [] ->
      1 <= length (_load_status_database files)).
Proof.
  split.
  - destruct (load_rest_length files []) as [_ H]. exact H.
  - unfold _load_status_database at 1. rewrite load_skips_unreadable. intros Hne.
    destruct (filter readable files) as [|f rest] eqn:E; [congruence|].
    assert (Hf : readable f = true).
    { assert (Hin : In f (filter readable files)) by (rewrite E; now left).
      now apply filter_In in Hin. }
    unfold _load_status_database. simpl.
    destruct (load_rest_length rest (load_file [] f)) as [Hlo _].
    destruct (load_file_length [] f) as (_ & _ & H1).
    specialize (H1 Hf). lia.
Qed.

Lemma loaded_index_size_witness :
  length scenario_db <= 2 * 2 /\ 1 <= length scenario_db.
Proof.
  destruct (loaded_index_size
              [mkMdFile "Digital Orca.md"
                 (Some (sections_of None (Some "In place") (Some "Downtown")));
               mkMdFile "The Drop.md"
                 (Some (sections_of None (Some " Removed ")
                          (Some "Downtown")));
               mkMdFile "unreadable.md" None]) as [Hhi Hlo].
  split; [exact Hhi | apply Hlo; vm_compute; discriminate].
Defined.

Lemma lstrip_head (s : string) : head_not_space (lstrip s) = true.
Proof.
  induction s as [|c s IH]; simpl; [reflexivity|].
  destruct (isspace c) eqn:E; [exact IH | simpl; now rewrite E].
Qed.

Lemma lstrip_fixed (s : string) : head_not_space s = true -> lstrip s = s.
Proof.
  destruct s as [|c s]; simpl; [reflexivity|].
  now destruct (isspace c).
Qed.

Lemma rstrip_head (s : string) :
  head_not_space s = true -> head_not_space (rstrip s) = true.
Proof.
  destruct s as [|c s]; simpl; [reflexivity|].
  destruct (isspace c) eqn:E; simpl; [discriminate|].
  intros _. now rewrite E.
Qed.

Lemma rstrip_idem (s : string) : rstrip (rstrip s) = rstrip s.
Proof.
  induction s as [|c s IH]; simpl; [reflexivity|].
  destruct (isspace c && negb (truthy (rstrip s))) eqn:E; simpl;
    [reflexivity|].
  now rewrite IH, E.
Qed.

Lemma strip_idem (s : string) : strip (strip s) = strip s.
Proof.
  unfold strip.
  rewrite (lstrip_fixed (rstrip (lstrip s)))
    by apply rstrip_head, lstrip_head.
  apply rstrip_idem.
Qed.

Lemma group_or_stripped (m : option string) (default : string) :
  strip default = default -> strip (group_or m default) = group_or m default.
Proof. destruct m; simpl; [intros _; apply strip_idem | trivial]. Qed.

(** X7: in every record of a loaded index, status, location and
    neighborhood carry no leading or trailing whitespace, whatever
    surrounds them in the file; so a status written with spaces around
    [In place] still equals the sentinel. *)
Theorem loaded_fields_stripped
  (files : list MdFile) (k : string) (r : Artwork) :
  In (k, r) (Dict.items (_load_status_database files)) ->
  strip (status r) = status r
  /\ strip (location r) = location r
  /\ strip (neighborhood r) = neighborhood r.
Proof.
  intros H. apply load_entries in H.
  destruct H as [[] | (f & c & _ & _ & -> & _)].
  simpl. repeat split; now apply group_or_stripped.
Qed.

Lemma loaded_fields_stripped_witness :
  status (parse_artwork "The Drop.md"
            (sections_of None (Some "  In place ") (Some " Downtown")))
  = "In place".
Proof.
  destruct (loaded_fields_stripped
              [mkMdFile "The Drop.md"
                 (Some (sections_of None (Some "  In place ")
                          (Some " Downtown")))]
              "the drop"
              (parse_artwork "The Drop.md"
                 (sections_of None (Some "  In place ") (Some " Downtown"))))
    as (Hs & _).
  - vm_compute. now left.
  - rewrite <- Hs. reflexivity.
Defined.

(* ================================================================== *)
(** * Further properties of the listings *)

Section InsertionSort.
Context {A : Type} (key : A -> string).

Lemma insert_key_perm (x : A) (l : list A) :
  Permutation (insert_key key x l) (x :: l).
Proof.
  induction l as [|y l IH]; simpl; [reflexivity|].
  destruct (String.leb (key x) (key y)); [reflexivity|].
  rewrite IH. apply perm_swap.
Qed.

Lemma sort_key_perm (l : list A) : Permutation (sort_key key l) l.
Proof.
  induction l as [|x l IH]; simpl; [reflexivity|].
  rewrite insert_key_perm. now constructor.
Qed.

Lemma insert_key_hd (x y : A) (l : list A) :
  key_le key y x -> HdRel (key_le key) y l ->
  HdRel (key_le key) y (insert_key key x l).
Proof.
  intros Hyx Hl. destruct l as [|z l]; simpl; [now constructor|].
  destruct (String.leb (key x) (key z)); constructor; [exact Hyx|].
  now inversion Hl.
Qed.

Lemma insert_key_sorted (x : A) (l : list A) :
  Sorted (key_le key) l -> Sorted (key_le key) (insert_key key x l).
Proof.
  induction l as [|y l IH]; simpl; intros Hs.
  - repeat constructor.
  - inversion Hs as [|? ? Htail Hhd]; subst.
    destruct (String.leb (key x) (key y)) eqn:E.
    + constructor; [exact Hs | now constructor].
    + constructor; [now apply IH|].
      apply insert_key_hd; [|exact Hhd].
      unfold key_le. destruct (String.leb_total (key x) (key y)); congruence.
Qed.

Lemma sort_key_sorted (l : list A) : Sorted (key_le key) (sort_key key l).
Proof.
  induction l as [|x l IH]; simpl; [constructor|].
  now apply insert_key_sorted.
Qed.

End InsertionSort.

Lemma insert_by_title_key (x : Artwork) (l : list Artwork) :
  insert_by_title x l = insert_key title x l.
Proof. induction l as [|y l IH]; simpl; [reflexivity | now rewrite IH]. Qed.

Lemma sort_by_title_key (l : list Artwork) :
  sort_by_title l = sort_key title l.
Proof.
  induction l as [|x l IH]; simpl; [reflexivity|].
  now rewrite IH, insert_by_title_key.
Qed.

Lemma insert_string_key (x : string) (l : list string) :
  insert_string x l = insert_key (fun s => s) x l.
Proof. induction l as [|y l IH]; simpl; [reflexivity | now rewrite IH]. Qed.

Lemma sorted_strings_key (l : list string) :
  sorted_strings l = sort_key (fun s => s) l.
Proof.
  induction l as [|x l IH]; simpl; [reflexivity|].
  now rewrite IH, insert_string_key.
Qed.

Lemma sort_by_title_perm (l : list Artwork) :
  Permutation (sort_by_title l) l.
Proof. rewrite sort_by_title_key. apply sort_key_perm. Qed.

Lemma sort_by_title_sorted (l : list Artwork) :
  Sorted title_le (sort_by_title l).
Proof. rewrite sort_by_title_key. apply (sort_key_sorted title). Qed.

Lemma seen_title_false (t : string) (seen : list string) :
  existsb (String.eqb t) seen = false <-> ~ In t seen.
Proof.
  induction seen as [|u seen IH]; simpl; [intuition|].
  rewrite orb_false_iff, IH, String.eqb_neq. intuition congruence.
Qed.

Lemma dedup_from_in (seen : list string) (l : list Artwork) (x : Artwork) :
  In x (dedup_from seen l) -> In x l /\ ~ In (title x) seen.
Proof.
  revert seen. induction l as [|y l IH]; intros seen; simpl; [intros []|].
  destruct (existsb (String.eqb (title y)) seen) eqn:E.
  - intros H. destruct (IH _ H). auto.
  - intros [<- | H].
    + split; [now left | now apply seen_title_false].
    + destruct (IH _ H) as [Hin Hseen]. split; [now right|].
      intros Hs. apply Hseen. now right.
Qed.

Lemma dedup_from_nodup (seen : list string) (l : list Artwork) :
  NoDup (map title (dedup_from seen l)).
Proof.
  revert seen. induction l as [|y l IH]; intros seen; simpl; [constructor|].
  destruct (existsb (String.eqb (title y)) seen); [apply IH|].
  simpl. constructor; [|apply IH].
  intros Hin. apply in_map_iff in Hin. destruct Hin as (z & Hz & Hzin).
  apply dedup_from_in in Hzin. destruct Hzin as [_ Hseen].
  apply Hseen. left. now symmetry.
Qed.

Lemma dedup_from_covers (seen : list string) (l : list Artwork)
  (x : Artwork) :
  In x l -> ~ In (title x) seen ->
  In (title x) (map title (dedup_from seen l)).
Proof.
  revert seen. induction l as [|y l IH]; intros seen; simpl; [intros []|].
  intros Hin Hseen.
  destruct (existsb (String.eqb (title y)) seen) eqn:E.
  - destruct Hin as [-> | Hin]; [|now apply IH].
    apply seen_title_false in Hseen. congruence.
  - simpl. destruct (string_dec (title y) (title x)) as [Ht | Ht];
      [now left | right].
    destruct Hin as [-> | Hin]; [congruence|].
    apply IH; [exact Hin|]. intros [Hs | Hs]; [congruence | contradiction].
Qed.

(** What a listing built by the collecting loop and the sort contains. *)
Lemma collected_listing (keep : Artwork -> bool) (db : StatusDb) :
  let listing := sort_by_title (collect keep db) in
  (forall r, In r listing -> In r (Dict.values db) /\ keep r = true)
  /\ NoDup (map title listing)
  /\ Sorted title_le listing
  /\ (forall r, In r (Dict.values db) -> keep r = true ->
        In (title r) (map title listing)).
Proof.
  intros listing.
  assert (Hperm : Permutation listing (filter_then_dedup keep db)).
  { unfold listing. rewrite collect_filter_then_dedup.
    apply sort_by_title_perm. }
  split; [|split; [|split]].
  - intros r Hr. apply (Permutation_in _ Hperm) in Hr.
    apply dedup_from_in in Hr. destruct Hr as [Hr _].
    now apply filter_In in Hr.
  - apply (Permutation_NoDup (l := map title (filter_then_dedup keep db))).
    + symmetry. now apply Permutation_map.
    + apply dedup_from_nodup.
  - apply sort_by_title_sorted.
  - intros r Hr Hkeep.
    apply (Permutation_in (l := map title (filter_then_dedup keep db))).
    + symmetry. now apply Permutation_map.
    + apply dedup_from_covers; [|intros []].
      apply filter_In. auto.
Qed.

Lemma active_keep_spec (nb : string) (r : Artwork) :
  active_keep nb r = true <->
  status r = "In place"
  /\ (nb <> "" ->
      neighborhood r <> ""
      /\ contains (lower nb) (lower (neighborhood r)) = true).
Proof.
  unfold active_keep, in_neighborhood.
  rewrite andb_true_iff, String.eqb_eq, orb_true_iff, andb_true_iff,
    negb_true_iff, truthy_false_iff, truthy_true_iff.
  destruct (string_dec nb "") as [-> | Hnb]; intuition congruence.
Qed.

(** X8: every artwork [list_active_artworks] works with is a record of
    the index whose status is exactly [In place] and, under a non-empty
    neighborhood filter, whose own neighborhood is non-empty and contains
    the filter, letter case ignored. *)
Theorem active_listing_sound (db : StatusDb) (nb : string) (r : Artwork) :
  In r (active_artworks db nb) ->
  In r (Dict.values db)
  /\ status r = "In place"
  /\ (nb <> "" ->
      neighborhood r <> ""
      /\ contains (lower nb) (lower (neighborhood r)) = true).
Proof.
  intros H.
  destruct (collected_listing (active_keep nb) db) as (Hsound & _).
  destruct (Hsound r H) as [Hin Hkeep]. split; [exact Hin|].
  now apply active_keep_spec.
Qed.

Lemma active_listing_sound_witness :
  status (parse_artwork "Digital Orca.md"
            (sections_of None (Some "In place") (Some "Downtown")))
  = "In place".
Proof.
  apply (active_listing_sound scenario_db "down"). vm_compute. now left.
Defined.

(** X9: the artworks [list_active_artworks] works with are sorted by
    title and no title occurs twice among them. *)
Theorem active_listing_sorted_unique (db : StatusDb) (nb : string) :
  Sorted title_le (active_artworks db nb)
  /\ NoDup (map title (active_artworks db nb)).
Proof.
  destruct (collected_listing (active_keep nb) db) as (_ & Hnd & Hs & _).
  split; assumption.
Qed.

Lemma numbered_contains {A : Type} (fmt : A -> string) (l : list A)
  (j : nat) (x : A) :
  In x l -> contains (". " ++ fmt x ++ nl) (numbered fmt j l) = true.
Proof.
  revert j. induction l as [|y l IH]; intros j Hin; [destruct Hin|].
  cbn [numbered]. destruct Hin as [-> | Hin].
  - apply contains_skip.
    rewrite <- (append_assoc (fmt x) nl (numbered fmt (S j) l)).
    rewrite <- (append_assoc ". " (fmt x ++ nl) (numbered fmt (S j) l)).
    apply contains_here.
  - do 4 apply contains_skip. now apply IH.
Qed.

(** X10: an index record that is in place and passes the neighborhood
    filter has its title among the artworks [list_active_artworks] counts,
    so the answer is never the empty-result message; and when the limit is
    at least that count, the returned text has the entry of an artwork of
    that title. *)
Theorem active_listing_complete
  (db : StatusDb) (nb : string) (r : Artwork) (limit : Z) :
  In r (Dict.values db) ->
  active_keep nb r = true ->
  In (title r) (map title (active_artworks db nb))
  /\ list_active_artworks db nb limit
     <> Returned
          (if truthy nb
           then "No active artworks found in the " ++ nb ++ " neighborhood"
           else "No active artworks found")
  /\ ((Z.of_nat (length (active_artworks db nb)) <= limit)%Z ->
      exists r' text,
        In r' (active_artworks db nb)
        /\ title r' = title r
        /\ list_active_artworks db nb limit = Returned text
        /\ contains (". " ++ active_line r' ++ nl) text = true).
Proof.
  intros Hin Hkeep.
  destruct (collected_listing (active_keep nb) db) as (_ & _ & _ & Hc).
  specialize (Hc r Hin Hkeep). fold (active_artworks db nb) in Hc.
  split; [exact Hc|].
  apply in_map_iff in Hc. destruct Hc as (r' & Ht & Hr').
  unfold list_active_artworks.
  destruct (active_more_cases (length (active_artworks db nb)) limit)
    as (Hnone & _ & _).
  destruct (active_artworks db nb) as [|a0 rest] eqn:E; [destruct Hr'|].
  cbv zeta. split.
  - destruct (active_more _ _) as [more|e]; cbn [bind]; [|discriminate].
    intros H. injection H as H. destruct (truthy nb); discriminate H.
  - intros Hall. exists r'. eexists.
    rewrite Hnone by exact Hall. cbn [bind].
    split; [exact Hr' | split; [exact Ht | split; [reflexivity|]]].
    assert (Hs : slice_to limit (a0 :: rest) = a0 :: rest).
    { unfold slice_to. destruct (Z.ltb_spec limit 0);
        [simpl length in *; lia|].
      apply firstn_all2. lia. }
    rewrite Hs, append_empty_r.
    do 9 apply contains_skip. now apply numbered_contains.
Qed.

Lemma active_listing_complete_witness :
  In "Twin" (map title (active_artworks twin_db ""))
  /\ exists r' text,
       title r' = "Twin"
       /\ list_active_artworks twin_db "" 3 = Returned text
       /\ contains (". " ++ active_line r' ++ nl) text = true.
Proof.
  destruct (active_listing_complete twin_db ""
              (parse_artwork "b.md"
                 (sections_of (Some "Twin") (Some "In place") None)) 3)
    as (Hin & _ & Hall).
  - vm_compute. tauto.
  - reflexivity.
  - split; [exact Hin|].
    destruct Hall as (r' & text & _ & Ht & Hout & Hc);
      [vm_compute; discriminate|].
    exists r', text. auto.
Defined.

Lemma in_neighborhood_spec (nb : string) (r : Artwork) :
  in_neighborhood nb r = true <->
  neighborhood r <> ""
  /\ contains (lower nb) (lower (neighborhood r)) = true.
Proof.
  unfold in_neighborhood. now rewrite andb_true_iff, truthy_true_iff.
Qed.

(** X11: the artworks [list_artworks_by_neighborhood] works with are
    records of the index with a non-empty neighborhood that contains the
    query, letter case ignored, whatever their status; they are sorted by
    title, no title occurs twice, and no title of such a record is
    omitted. *)
Theorem neighborhood_listing_spec (db : StatusDb) (nb : string) :
  let listing := artworks_in_neighborhood db nb in
  (forall r, In r listing ->
     In r (Dict.values db)
     /\ neighborhood r <> ""
     /\ contains (lower nb) (lower (neighborhood r)) = true)
  /\ Sorted title_le listing
  /\ NoDup (map title listing)
  /\ (forall r, In r (Dict.values db) ->
        neighborhood r <> "" ->
        contains (lower nb) (lower (neighborhood r)) = true ->
        In (title r) (map title listing)).
Proof.
  intros listing.
  destruct (collected_listing (in_neighborhood nb) db)
    as (Hsound & Hnd & Hs & Hc).
  split; [|split; [exact Hs | split; [exact Hnd|]]].
  - intros r Hr. destruct (Hsound r Hr) as [Hin Hkeep].
    split; [exact Hin | now apply in_neighborhood_spec].
  - intros r Hin Hne Hsub. apply Hc; [exact Hin|].
    now apply in_neighborhood_spec.
Qed.

Lemma neighborhood_listing_spec_witness :
  In "The Drop" (map title (artworks_in_neighborhood scenario_db "DOWN")).
Proof.
  destruct (neighborhood_listing_spec scenario_db "DOWN") as (_ & _ & _ & H).
  apply (H (parse_artwork "The Drop.md"
              (sections_of None (Some " Removed ") (Some "Downtown")))).
  - vm_compute. tauto.
  - discriminate.
  - reflexivity.
Defined.

(** X12: for a non-negative limit, on an index of at most [sys.maxsize]
    entries, the text [list_artworks_by_neighborhood] returns lists
    exactly the first [limit] artworks found, in sorted order, so at most
    [limit] entries, and when more were found it ends with the sentence
    giving their number minus the limit. *)
Theorem neighborhood_listing_limit (db : StatusDb) (nb : string) (limit : Z) :
  holdable db ->
  (0 <= limit)%Z ->
  let found := artworks_in_neighborhood db nb in
  let shown := firstn (Z.to_nat limit) found in
  (Z.of_nat (length shown) <= limit)%Z
  /\ list_artworks_by_neighborhood db nb limit
     = Returned
         (match found with
          | [] => "No artworks found in the " ++ nb ++ " neighborhood."
          | _ :: _ =>
              "Found " ++ str_nat (length found) ++ " artworks in " ++ nb
                ++ " (showing " ++ str_nat (length shown) ++ "):"
                ++ nl ++ nl
                ++ numbered match_line 1 shown
                ++ (if (limit <? Z.of_nat (length found))%Z
                    then nl ++ "There are "
                           ++ decimal (Z.of_nat (length found) - limit)
                           ++ " more artworks in this neighborhood."
                    else "")
          end).
Proof.
  intros Hfit Hlimit found shown.
  split; [unfold shown; rewrite length_firstn; lia|].
  pose proof (collected_length (in_neighborhood nb) db) as Hlen.
  fold (artworks_in_neighborhood db nb) in Hlen. fold found in Hlen.
  pose proof sys_maxsize_small as Hbig. unfold holdable in Hfit.
  unfold list_artworks_by_neighborhood. fold found.
  destruct (neighborhood_more_cases (length found) limit)
    as (Hnone & Hsome & _).
  destruct found as [|a0 rest] eqn:E; [reflexivity|].
  cbv zeta. rewrite (slice_to_nonneg limit (a0 :: rest) Hlimit).
  fold shown.
  destruct (Z.ltb_spec limit (Z.of_nat (length (a0 :: rest)))).
  - rewrite Hsome by lia. reflexivity.
  - rewrite Hnone by lia. reflexivity.
Qed.

Lemma neighborhood_listing_limit_witness :
  list_artworks_by_neighborhood scenario_db "down" 1
  = Returned
      ("Found 2 artworks in down (showing 1):" ++ nl ++ nl
         ++ "1. Digital Orca - Status: In place" ++ nl ++ nl
         ++ "There are 1 more artworks in this neighborhood.").
Proof.
  destruct (neighborhood_listing_limit scenario_db "down" 1) as [_ H].
  - unfold holdable. vm_compute. discriminate.
  - lia.
  - rewrite H. reflexivity.
Defined.

(** X13: under a non-empty neighborhood filter, every title that
    [list_active_artworks] works with is also one that
    [list_artworks_by_neighborhood] works with for the same neighborhood,
    so the first never counts more artworks than the second. *)
Theorem active_within_neighborhood (db : StatusDb) (nb : string) :
  nb <> "" ->
  incl (map title (active_artworks db nb))
       (map title (artworks_in_neighborhood db nb))
  /\ length (active_artworks db nb)
     <= length (artworks_in_neighborhood db nb).
Proof.
  intros Hnb.
  assert (Hincl : incl (map title (active_artworks db nb))
                       (map title (artworks_in_neighborhood db nb))).
  { intros t Ht. apply in_map_iff in Ht. destruct Ht as (r & <- & Hr).
    destruct (collected_listing (active_keep nb) db) as (Hsound & _).
    destruct (Hsound r Hr) as [Hin Hkeep].
    destruct (collected_listing (in_neighborhood nb) db) as (_ & _ & _ & Hc).
    apply Hc; [exact Hin|].
    apply active_keep_spec in Hkeep. destruct Hkeep as [_ Hk].
    apply in_neighborhood_spec. now apply Hk. }
  split; [exact Hincl|].
  rewrite <- (length_map title (active_artworks db nb)).
  rewrite <- (length_map title (artworks_in_neighborhood db nb)).
  apply NoDup_incl_length; [|exact Hincl].
  destruct (collected_listing (active_keep nb) db) as (_ & Hnd & _).
  exact Hnd.
Qed.

Lemma active_within_neighborhood_witness :
  length (active_artworks scenario_db "down")
  <= length (artworks_in_neighborhood scenario_db "down").
Proof.
  apply (active_within_neighborhood scenario_db "down"). discriminate.
Defined.

(** X14: a negative limit is not rejected: [list_active_artworks] then
    drops that many artworks from the end of the sorted list and, when
    anything matched, closes with the sentence on further artworks, whose
    number, total minus limit, exceeds the total; unless that number
    reaches [10^4300], in which case the call raises [ValueError]. *)
Theorem list_active_negative_limit (db : StatusDb) (nb : string) (limit : Z) :
  (limit < 0)%Z ->
  let active := active_artworks db nb in
  let shown := firstn (length active - Z.to_nat (- limit)) active in
  active <> [] ->
  (Z.of_nat (length active) < Z.of_nat (length active) - limit)%Z
  /\ list_active_artworks db nb limit
     = if (str_digits_bound <=? Z.of_nat (length active) - limit)%Z
       then Raised ValueError
       else Returned
              ("Found " ++ str_nat (length active) ++ " active artworks"
                 ++ (if truthy nb then " in or near " ++ nb else "")
                 ++ " (showing " ++ str_nat (length shown) ++ "):"
                 ++ nl ++ nl
                 ++ numbered active_line 1 shown
                 ++ nl ++ "There are "
                 ++ decimal (Z.of_nat (length active) - limit)
                 ++ " more active artworks.").
Proof.
  intros Hneg active shown Hne. split; [lia|].
  assert (Hs : slice_to limit active = shown).
  { unfold shown, slice_to. destruct (Z.ltb_spec limit 0); [|lia].
    f_equal. lia. }
  unfold list_active_artworks. fold active.
  destruct (active_more_cases (length active) limit) as (_ & Hsome & Hhuge).
  destruct active as [|a0 rest] eqn:E; [congruence|].
  cbv zeta. rewrite Hs.
  destruct (Z.leb_spec str_digits_bound
              (Z.of_nat (length (a0 :: rest)) - limit)).
  - rewrite Hhuge by assumption. reflexivity.
  - rewrite Hsome by lia. reflexivity.
Qed.

Lemma list_active_negative_limit_witness :
  list_active_artworks pair_db "" (-1)
  = Returned ("Found 2 active artworks (showing 1):" ++ nl ++ nl
                ++ "1. a" ++ nl ++ nl ++ "There are 3 more active artworks.")
  /\ list_active_artworks pair_db "" (1 - 10 ^ 4300) = Raised ValueError.
Proof.
  destruct (list_active_negative_limit pair_db "" (-1)) as [_ H1];
    [lia | vm_compute; discriminate |].
  destruct (list_active_negative_limit pair_db "" (1 - 10 ^ 4300))
    as [_ H2]; [vm_compute; reflexivity | vm_compute; discriminate |].
  split; [rewrite H1 | rewrite H2]; vm_compute; reflexivity.
Defined.

(** X23: when the limit is at least the number of matching artworks,
    [list_active_artworks] lists all of them and its text ends with the
    last entry, without the sentence on further artworks. *)
Theorem list_active_all_shown (db : StatusDb) (nb : string) (limit : Z) :
  (Z.of_nat (length (active_artworks db nb)) <= limit)%Z ->
  active_artworks db nb <> [] ->
  slice_to limit (active_artworks db nb) = active_artworks db nb
  /\ exists head,
       list_active_artworks db nb limit
       = Returned (head ++ numbered active_line 1 (active_artworks db nb)).
Proof.
  intros Hall Hne.
  assert (Hs : slice_to limit (active_artworks db nb) = active_artworks db nb).
  { unfold slice_to. destruct (Z.ltb_spec limit 0); [lia|].
    apply firstn_all2. lia. }
  split; [exact Hs|].
  unfold list_active_artworks.
  destruct (active_more_cases (length (active_artworks db nb)) limit)
    as (Hnone & _ & _).
  destruct (active_artworks db nb) as [|a0 rest]; [congruence|].
  cbv zeta. rewrite (Hnone Hall), Hs. cbn [bind].
  rewrite append_empty_r. eexists. rewrite <- !append_assoc. reflexivity.
Qed.

Lemma list_active_all_shown_witness :
  exists head,
    list_active_artworks pair_db "" 2
    = Returned (head ++ "1. a" ++ nl ++ "2. b" ++ nl).
Proof.
  destruct (list_active_all_shown pair_db "" 2) as [_ H].
  - vm_compute. discriminate.
  - vm_compute. discriminate.
  - exact H.
Defined.

(* ================================================================== *)
(** * Further properties of the lookups *)

Lemma find_filter_hd {A : Type} (f : A -> bool) (l : list A) :
  find f l = hd_error (filter f l).
Proof.
  induction l as [|x l IH]; simpl; [reflexivity|].
  now destruct (f x).
Qed.

Lemma classify_fuzzy (db : StatusDb) (nm : string) :
  Dict.get db (lower nm) = None ->
  classify db nm
  = match fuzzy_matches db nm with
    | [] => NotFound nm
    | m :: _ => Found nm (title m) (status m)
    end.
Proof.
  intros Hget. unfold classify, fuzzy_matches. rewrite Hget, find_filter_hd.
  destruct (filter _ _) as [|[k data] rest]; reflexivity.
Qed.

(** X15: [compare_artwork_status] and [get_artwork_status] resolve a
    non-empty name alike. If its lowercase form is a key, both report that
    key's record. If not, the comparison takes the first artwork of the
    fuzzy list the status answer shows, and files the name under not found
    exactly when the status answer is the no-artwork-found message. *)
Theorem compare_agrees_with_status (db : StatusDb) (nm : string) (d : bool) :
  nm <> "" ->
  (forall art, Dict.get db (lower nm) = Some art ->
     compare_one db nm = Returned (Found nm (title art) (status art))
     /\ get_artwork_status db nm d = Returned (exact_response art d))
  /\ (Dict.get db (lower nm) = None ->
      get_artwork_status db nm d
      = Returned (unmatched_response nm (fuzzy_matches db nm))
      /\ compare_one db nm
         = Returned (match fuzzy_matches db nm with
                     | [] => NotFound nm
                     | m :: _ => Found nm (title m) (status m)
                     end))
  /\ (compare_one db nm = Returned (NotFound nm) <->
      get_artwork_status db nm d = Returned (no_match_response nm)).
Proof.
  intros Hnm. rewrite compare_one_classify.
  assert (Hexact : forall art, Dict.get db (lower nm) = Some art ->
            Returned (classify db nm)
            = Returned (Found nm (title art) (status art))
            /\ get_artwork_status db nm d = Returned (exact_response art d)).
  { intros art Hget. split.
    - unfold classify. now rewrite Hget.
    - assert (Hk : Dict.contains_key db (lower nm) = true)
        by (apply contains_key_get; eauto).
      destruct (status_exact db nm d Hnm Hk) as (a & Ha & ->). congruence. }
  assert (Hfuzzy : Dict.get db (lower nm) = None ->
            get_artwork_status db nm d
            = Returned (unmatched_response nm (fuzzy_matches db nm))
            /\ Returned (classify db nm)
               = Returned (match fuzzy_matches db nm with
                           | [] => NotFound nm
                           | m :: _ => Found nm (title m) (status m)
                           end)).
  { intros Hget. split.
    - apply status_unmatched; [exact Hnm|].
      now apply contains_key_false_get.
    - now rewrite classify_fuzzy. }
  split; [exact Hexact | split; [exact Hfuzzy|]].
  destruct (Dict.get db (lower nm)) as [art|] eqn:Hget.
  - destruct (Hexact art eq_refl) as [-> ->]. split; intros H.
    + discriminate.
    + exfalso. injection H as H. revert H.
      destruct d; unfold exact_response, no_match_response; simpl;
        discriminate.
  - destruct (Hfuzzy eq_refl) as [-> ->].
    destruct (fuzzy_matches db nm) as [|m rest]; simpl.
    + split; reflexivity.
    + split; intros H; [discriminate|].
      exfalso. injection H as H. revert H.
      unfold fuzzy_response, no_match_response. simpl. discriminate.
Qed.

Lemma compare_agrees_with_status_witness :
  compare_one scenario_db "dro" = Returned (Found "dro" "The Drop" "Removed")
  /\ (compare_one scenario_db "ghost" = Returned (NotFound "ghost") <->
      get_artwork_status scenario_db "ghost" false
      = Returned (no_match_response "ghost")).
Proof.
  destruct (compare_agrees_with_status scenario_db "dro" false)
    as (_ & Hf & _); [discriminate|].
  destruct (compare_agrees_with_status scenario_db "ghost" false)
    as (_ & _ & Hn); [discriminate|].
  split; [|exact Hn].
  destruct Hf as [_ Hf]; [reflexivity|]. rewrite Hf. reflexivity.
Defined.

Lemma nth_error_two_in {A : Type} (l : list A) (x y : A) :
  In x l -> In y l -> x <> y ->
  exists i j, i <> j /\ nth_error l i = Some x /\ nth_error l j = Some y.
Proof.
  intros Hx Hy Hne.
  apply In_nth_error in Hx. apply In_nth_error in Hy.
  destruct Hx as [i Hi]. destruct Hy as [j Hj].
  exists i, j. split; [|auto]. intros ->. congruence.
Qed.

(** X16: the fuzzy scan goes over keys, not artworks: a record stored
    under two keys whose title contains the lowercased query is matched
    once per key, so it occupies two places of the match list and counts
    twice in the number the answer reports. *)
Theorem fuzzy_match_per_key
  (db : StatusDb) (Q k1 k2 : string) (r : Artwork) :
  In (k1, r) (Dict.items db) ->
  In (k2, r) (Dict.items db) ->
  k1 <> k2 ->
  contains (lower Q) (lower (title r)) = true ->
  (exists i j,
     i <> j
     /\ nth_error (fuzzy_matches db Q) i = Some r
     /\ nth_error (fuzzy_matches db Q) j = Some r)
  /\ 2 <= length (fuzzy_matches db Q).
Proof.
  intros H1 H2 Hne Hsub.
  assert (Hhit : forall k, fuzzy_hit (lower Q) (k, r) = true).
  { intros k. unfold fuzzy_hit. simpl. rewrite Hsub. apply orb_true_r. }
  assert (Hf1 : In (k1, r) (filter (fuzzy_hit (lower Q)) (Dict.items db)))
    by (apply filter_In; auto).
  assert (Hf2 : In (k2, r) (filter (fuzzy_hit (lower Q)) (Dict.items db)))
    by (apply filter_In; auto).
  destruct (nth_error_two_in _ _ _ Hf1 Hf2) as (i & j & Hij & Hi & Hj);
    [congruence|].
  assert (Hmi : nth_error (fuzzy_matches db Q) i = Some r)
    by (unfold fuzzy_matches; now rewrite nth_error_map, Hi).
  assert (Hmj : nth_error (fuzzy_matches db Q) j = Some r)
    by (unfold fuzzy_matches; now rewrite nth_error_map, Hj).
  split; [exists i, j; auto|].
  assert (Hli : i < length (fuzzy_matches db Q))
    by (apply nth_error_Some; congruence).
  assert (Hlj : j < length (fuzzy_matches db Q))
    by (apply nth_error_Some; congruence).
  lia.
Qed.

Lemma fuzzy_match_per_key_witness :
  get_artwork_status twin_db "wi" false
  = Returned ("Could not find exact match for 'wi', but found 3 similar artwork(s):"
                ++ nl ++ nl
                ++ "1. Twin - Status: Removed" ++ nl
                ++ "2. Twin - Status: In place" ++ nl
                ++ "3. Twin - Status: In place" ++ nl)
  /\ 2 <= length (fuzzy_matches twin_db "wi").
Proof.
  split; [reflexivity|].
  apply (fuzzy_match_per_key twin_db "wi" "twin" "b"
           (parse_artwork "b.md"
              (sections_of (Some "Twin") (Some "In place") None))).
  - vm_compute. tauto.
  - vm_compute. tauto.
  - discriminate.
  - reflexivity.
Defined.

(* ================================================================== *)
(** * Further properties of the comparison input *)

Lemma split_comma_free (s : string) :
  Forall (fun t => comma_free t = true) (split_comma s).
Proof.
  induction s as [|c s IH]; simpl.
  - now constructor.
  - destruct (Ascii.eqb c ",") eqn:E.
    + now constructor.
    + destruct (split_comma s) as [|h t].
      * constructor; [simpl; now rewrite E | constructor].
      * inversion IH; subst. constructor; [|assumption].
        simpl. now rewrite E.
Qed.

Lemma lstrip_comma_free (s : string) :
  comma_free s = true -> comma_free (lstrip s) = true.
Proof.
  induction s as [|c s IH]; simpl; [trivial|].
  intros H. apply andb_true_iff in H. destruct H as [Hc Hs].
  destruct (isspace c); [now apply IH | simpl; now rewrite Hc, Hs].
Qed.

Lemma rstrip_comma_free (s : string) :
  comma_free s = true -> comma_free (rstrip s) = true.
Proof.
  induction s as [|c s IH]; simpl; [trivial|].
  intros H. apply andb_true_iff in H. destruct H as [Hc Hs].
  destruct (isspace c && negb (truthy (rstrip s))); [reflexivity|].
  simpl. now rewrite Hc, IH.
Qed.

Lemma strip_comma_free (s : string) :
  comma_free s = true -> comma_free (strip s) = true.
Proof. intros H. now apply rstrip_comma_free, lstrip_comma_free. Qed.

Lemma names_list_tokens (artwork_names n : string) :
  In n (names_list artwork_names) ->
  n <> "" /\ strip n = n /\ comma_free n = true.
Proof.
  unfold names_list. intros H. apply filter_In in H. destruct H as [H Ht].
  apply in_map_iff in H. destruct H as (t & <- & Hin).
  split; [now apply truthy_true_iff|]. split; [apply strip_idem|].
  apply strip_comma_free.
  pose proof (split_comma_free artwork_names) as Hall.
  rewrite Forall_forall in Hall. now apply Hall.
Qed.

(** X17: every name [compare_artwork_status] looks up is non-empty, has
    no whitespace left at either end and contains no comma. *)
Theorem names_list_clean (artwork_names n : string) :
  In n (names_list artwork_names) ->
  n <> "" /\ strip n = n /\ comma_free n = true.
Proof. apply names_list_tokens. Qed.

Lemma names_list_clean_witness :
  "The Drop" <> "" /\ strip "The Drop" = "The Drop"
  /\ comma_free "The Drop" = true.
Proof.
  apply (names_list_clean " Digital Orca ,, The Drop ,").
  vm_compute. tauto.
Defined.

Lemma split_comma_piece (x rest : string) :
  comma_free x = true ->
  split_comma (x ++ "," ++ rest) = x :: split_comma rest.
Proof.
  induction x as [|c x IH]; simpl; [reflexivity|].
  intros H. apply andb_true_iff in H. destruct H as [Hc Hx].
  apply negb_true_iff in Hc. rewrite Hc.
  change (split_comma (x ++ String "," rest))
    with (split_comma (x ++ "," ++ rest)).
  now rewrite IH.
Qed.

Lemma split_comma_single (x : string) :
  comma_free x = true -> split_comma x = [x].
Proof.
  induction x as [|c x IH]; simpl; [reflexivity|].
  intros H. apply andb_true_iff in H. destruct H as [Hc Hx].
  apply negb_true_iff in Hc. now rewrite Hc, IH.
Qed.

Lemma split_comma_concat (l : list string) :
  l <> [] -> Forall (fun t => comma_free t = true) l ->
  split_comma (String.concat "," l) = l.
Proof.
  induction l as [|x l IH]; [congruence|]. intros _ Hall.
  inversion Hall as [|? ? Hx Hl]; subst.
  destruct l as [|y l].
  - simpl. now apply split_comma_single.
  - change (String.concat "," (x :: y :: l))
      with (x ++ "," ++ String.concat "," (y :: l)).
    rewrite split_comma_piece by exact Hx.
    rewrite IH; [reflexivity | discriminate | exact Hl].
Qed.

Lemma names_list_concat (l : list string) :
  Forall (fun n => n <> "" /\ strip n = n /\ comma_free n = true) l ->
  names_list (String.concat "," l) = l.
Proof.
  intros Hall. destruct l as [|x l]; [reflexivity|].
  unfold names_list. rewrite split_comma_concat.
  - induction Hall as [|n m (Hn & Hs & _) _ IH]; [reflexivity|].
    cbn [map filter]. rewrite Hs.
    apply truthy_true_iff in Hn. now rewrite Hn, IH.
  - discriminate.
  - eapply Forall_impl; [|exact Hall]. simpl. tauto.
Qed.

(** X18: blanks around names and empty entries do not matter to
    [compare_artwork_status]: as soon as the input holds one name, it gets
    the same answer as the cleaned-up names joined by single commas. *)
Theorem compare_ignores_padding (db : StatusDb) (artwork_names : string) :
  names_list artwork_names <> [] ->
  compare_artwork_status db artwork_names
  = compare_artwork_status db (String.concat "," (names_list artwork_names)).
Proof.
  intros Hne.
  assert (Hsame : names_list (String.concat "," (names_list artwork_names))
                  = names_list artwork_names).
  { apply names_list_concat, Forall_forall.
    intros n Hn. now apply (names_list_tokens artwork_names). }
  rewrite (compare_renders_buckets db artwork_names Hne).
  rewrite (compare_renders_buckets db
             (String.concat "," (names_list artwork_names)))
    by (rewrite Hsame; exact Hne).
  now rewrite Hsame.
Qed.

Lemma compare_ignores_padding_witness :
  compare_artwork_status scenario_db " Digital Orca ,, The Drop ,"
  = compare_artwork_status scenario_db "Digital Orca,The Drop".
Proof.
  apply (compare_ignores_padding scenario_db " Digital Orca ,, The Drop ,").
  vm_compute. discriminate.
Defined.

(* ================================================================== *)
(** * Properties of list_known_neighborhoods *)

Lemma set_add_in (x n : string) (s : list string) :
  In n (set_add x s) <-> n = x \/ In n s.
Proof.
  unfold set_add. destruct (existsb (String.eqb x) s) eqn:E.
  - split; [auto|]. intros [-> | H]; [|exact H].
    apply existsb_exists in E. destruct E as (y & Hy & Heq).
    apply String.eqb_eq in Heq. now subst y.
  - rewrite in_app_iff. simpl. intuition congruence.
Qed.

Lemma set_add_nodup (x : string) (s : list string) :
  NoDup s -> NoDup (set_add x s).
Proof.
  intros H. unfold set_add.
  destruct (existsb (String.eqb x) s) eqn:E; [exact H|].
  apply seen_title_false in E.
  apply NoDup_app; [exact H | repeat constructor; intros [] |].
  intros y Hy [<- | []]. contradiction.
Qed.

Lemma neighborhood_loop (l : list Artwork) (s : list string) (n : string) :
  In n (fold_left
          (fun s data =>
             if truthy (neighborhood data) then set_add (neighborhood data) s
             else s) l s)
  <-> In n s \/ (n <> "" /\ exists r, In r l /\ neighborhood r = n).
Proof.
  revert s. induction l as [|x l IH]; intros s; simpl.
  - split; [auto|]. intros [H | (_ & r & [] & _)]. exact H.
  - rewrite IH. destruct (truthy (neighborhood x)) eqn:E.
    + rewrite set_add_in. apply truthy_true_iff in E. split.
      * intros [[-> | H] | (Hn & r & Hr & Hnb)]; eauto 6.
      * intros [H | (Hn & r & [<- | Hr] & Hnb)]; eauto 6.
    + apply truthy_false_iff in E. split.
      * intros [H | (Hn & r & Hr & Hnb)]; eauto 6.
      * intros [H | (Hn & r & [<- | Hr] & Hnb)]; eauto 6. congruence.
Qed.

Lemma neighborhood_loop_nodup (l : list Artwork) (s : list string) :
  NoDup s ->
  NoDup (fold_left
           (fun s data =>
              if truthy (neighborhood data) then set_add (neighborhood data) s
              else s) l s).
Proof.
  revert s. induction l as [|x l IH]; intros s H; simpl; [exact H|].
  apply IH. destruct (truthy (neighborhood x)); [now apply set_add_nodup|].
  exact H.
Qed.

Lemma neighborhood_list_perm (db : StatusDb) :
  Permutation (neighborhood_list db) (neighborhood_set db).
Proof.
  unfold neighborhood_list. rewrite sorted_strings_key. apply sort_key_perm.
Qed.

Lemma neighborhood_list_in (db : StatusDb) (n : string) :
  In n (neighborhood_list db) <->
  n <> "" /\ exists r, In r (Dict.values db) /\ neighborhood r = n.
Proof.
  split.
  - intros H. apply (Permutation_in _ (neighborhood_list_perm db)) in H.
    apply neighborhood_loop in H. destruct H as [[] | H]. exact H.
  - intros H.
    apply (Permutation_in _ (Permutation_sym (neighborhood_list_perm db))).
    apply neighborhood_loop. now right.
Qed.

(** X19: the names [list_known_neighborhoods] prints are exactly the
    non-empty neighborhoods of the records of the index, each once, in
    ascending order. *)
Theorem known_neighborhoods_spec (db : StatusDb) :
  (forall n,
     In n (neighborhood_list db) <->
     n <> "" /\ exists r, In r (Dict.values db) /\ neighborhood r = n)
  /\ NoDup (neighborhood_list db)
  /\ Sorted string_le (neighborhood_list db)
  /\ (neighborhood_list db <> [] ->
      list_known_neighborhoods db
      = "Known neighborhoods:" ++ nl ++ nl
          ++ join_nl (map (fun n => "- " ++ n) (neighborhood_list db))).
Proof.
  split; [apply neighborhood_list_in|]. split; [|split].
  - apply (Permutation_NoDup (Permutation_sym (neighborhood_list_perm db))).
    apply neighborhood_loop_nodup. constructor.
  - unfold neighborhood_list. rewrite sorted_strings_key.
    apply (sort_key_sorted (fun s => s)).
  - unfold list_known_neighborhoods.
    destruct (neighborhood_list db); [congruence | reflexivity].
Qed.

Lemma known_neighborhoods_spec_witness :
  list_known_neighborhoods scenario_db
  = "Known neighborhoods:" ++ nl ++ nl ++ "- Downtown".
Proof.
  destruct (known_neighborhoods_spec scenario_db) as (_ & _ & _ & H).
  rewrite H by (vm_compute; discriminate). reflexivity.
Defined.

(** X20: [list_known_neighborhoods] answers that no neighborhood is known
    exactly when every record of the index has an empty neighborhood, the
    empty index included. *)
Theorem known_neighborhoods_none (db : StatusDb) :
  list_known_neighborhoods db = "No known neighborhoods found."
  <-> (forall r, In r (Dict.values db) -> neighborhood r = "").
Proof.
  unfold list_known_neighborhoods.
  destruct (neighborhood_list db) as [|n rest] eqn:E.
  - split; [intros _ | reflexivity].
    intros r Hr. destruct (string_dec (neighborhood r) "") as [|Hne];
      [assumption|].
    assert (Hin : In (neighborhood r) (neighborhood_list db))
      by (apply neighborhood_list_in; eauto).
    rewrite E in Hin. destruct Hin.
  - split; [simpl; discriminate|].
    intros Hall. exfalso.
    assert (Hin : In n (neighborhood_list db)) by (rewrite E; now left).
    apply neighborhood_list_in in Hin. destruct Hin as (Hne & r & Hr & Hnb).
    apply Hne. rewrite <- Hnb. now apply Hall.
Qed.

Lemma known_neighborhoods_none_witness :
  list_known_neighborhoods twin_db = "No known neighborhoods found.".
Proof.
  apply (known_neighborhoods_none twin_db).
  intros r Hr. vm_compute in Hr.
  destruct Hr as [<- | [<- | [<- | []]]]; reflexivity.
Defined.

(* ================================================================== *)
(** * Properties of the HTTP routes *)

Lemma status_text_not_input_error (db : StatusDb) (n : string) (d : bool)
  (text : string) :
  n <> "" ->
  get_artwork_status db n d = Returned text ->
  text <> "Error: No artwork name provided".
Proof.
  intros Hn Htext.
  destruct (Dict.contains_key db (lower n)) eqn:Hk.
  - destruct (status_exact db n d Hn Hk) as (art & _ & Hout).
    rewrite Hout in Htext. injection Htext as <-.
    destruct d; unfold exact_response; simpl; discriminate.
  - rewrite (status_unmatched db n d Hn Hk) in Htext. injection Htext as <-.
    destruct (fuzzy_matches db n); simpl; discriminate.
Qed.

(** X21: the [/status] route answers 400 with an error body when [q] is
    missing or empty and never calls the lookup then; otherwise it answers
    200 with the text of [get_artwork_status] on the first [q] given,
    which is never that function's own no-name error, detailed exactly
    when the [details] parameter reads [true] in any letter case. *)
Theorem status_route (db : StatusDb) (args : ApiServer.Args) :
  let q := ApiServer.args_get args "q" "" in
  let details :=
    String.eqb (lower (ApiServer.args_get args "details" "false")) "true" in
  (q = "" ->
   ApiServer.get_status db args
   = Returned (ApiServer.mkResponse
                 (ApiServer.JsonError "No artwork name provided") 400))
  /\ (q <> "" ->
      exists text,
        get_artwork_status db q details = Returned text
        /\ text <> "Error: No artwork name provided"
        /\ ApiServer.get_status db args
           = Returned (ApiServer.mkResponse (ApiServer.JsonResult text) 200)).
Proof.
  intros q details. unfold ApiServer.get_status. fold q. fold details.
  split.
  - intros ->. reflexivity.
  - intros Hq. destruct (status_returns db q details) as (text & Htext & _).
    exists text. split; [exact Htext|].
    split; [now apply (status_text_not_input_error db q details)|].
    apply truthy_true_iff in Hq. cbv zeta. now rewrite Hq, Htext.
Qed.

Lemma status_route_witness :
  ApiServer.get_status scenario_db [("details", "True"); ("q", "the drop")]
  = Returned (ApiServer.mkResponse
                (ApiServer.JsonResult
                   ("Artwork: The Drop" ++ nl ++ "Status: Removed" ++ nl ++ nl
                      ++ "Neighborhood: Downtown")) 200)
  /\ ApiServer.get_status scenario_db [("details", "true")]
     = Returned (ApiServer.mkResponse
                   (ApiServer.JsonError "No artwork name provided") 400).
Proof.
  split.
  - destruct (status_route scenario_db [("details", "True"); ("q", "the drop")])
      as [_ H].
    destruct H as (text & Htext & _ & Hout); [discriminate|].
    rewrite Hout. vm_compute in Htext. now injection Htext as <-.
  - now apply (status_route scenario_db [("details", "true")]).
Defined.

(** X22: the [/compare] route answers 400 with an error body when [q] is
    missing or empty; otherwise it answers 200 with the text of
    [compare_artwork_status], and so reports an input made of commas and
    blanks only with status 200 and the format error as its result. *)
Theorem compare_route (db : StatusDb) (args : ApiServer.Args) :
  let q := ApiServer.args_get args "q" "" in
  (q = "" ->
   ApiServer.compare_artworks db args
   = Returned (ApiServer.mkResponse
                 (ApiServer.JsonError "No artwork names provided") 400))
  /\ (q <> "" ->
      exists text,
        compare_artwork_status db q = Returned text
        /\ ApiServer.compare_artworks db args
           = Returned (ApiServer.mkResponse (ApiServer.JsonResult text) 200))
  /\ (q <> "" -> names_list q = [] ->
      ApiServer.compare_artworks db args
      = Returned (ApiServer.mkResponse
                    (ApiServer.JsonResult
                       "Error: Invalid input format. Please provide a comma-separated list of artwork names.")
                    200)).
Proof.
  intros q. unfold ApiServer.compare_artworks. fold q.
  split; [intros ->; reflexivity|]. split.
  - intros Hq. destruct (compare_returns db q) as (text & Htext & _).
    exists text. split; [exact Htext|].
    apply truthy_true_iff in Hq. cbv zeta. now rewrite Hq, Htext.
  - intros Hq Hnames. apply truthy_true_iff in Hq. cbv zeta. rewrite Hq.
    unfold compare_artwork_status. rewrite Hq. cbv zeta. now rewrite Hnames.
Qed.

Lemma compare_route_witness :
  ApiServer.compare_artworks scenario_db [("q", " , ,")]
  = Returned (ApiServer.mkResponse
                (ApiServer.JsonResult
                   "Error: Invalid input format. Please provide a comma-separated list of artwork names.")
                200)
  /\ ApiServer.compare_artworks scenario_db [("limit", "3")]
     = Returned (ApiServer.mkResponse
                   (ApiServer.JsonError "No artwork names provided") 400).
Proof.
  destruct (compare_route scenario_db [("q", " , ,")]) as (_ & _ & H).
  destruct (compare_route scenario_db [("limit", "3")]) as (H0 & _).
  split; [apply H; [discriminate | reflexivity] | now apply H0].
Defined.
